(** * CharacterFunctions: numeric parsing and lexical primitives

    A shallow embedding of [juce_CharacterFunctions.h]: the templates
    [getDoubleValue], [getIntValue], [copyAndAdvanceUpToBytes], [compare],
    [compareUpTo], [indexOf] and [findEndOfWhitespace], over a character
    pointer that is read code point by code point. *)

From Stdlib Require Import ZArith List Bool Lia String Ascii.
From Stdlib Require Import Floats.SpecFloat.
Import ListNotations.
Local Open Scope Z_scope.

(** ** Code points and character pointers *)

(** [juce_wchar] is a code point.  A character pointer is a position in a
    null-terminated text: it is modelled by the code points from the position
    up to (excluding) the terminator.  Reading at the terminator yields 0. *)
Definition juce_wchar := Z.
Definition CharPointer := list juce_wchar.

(** [*s] *)
Definition deref (s : CharPointer) : juce_wchar := hd 0 s.

(** [++s]; a pointer at the terminator stays there. *)
Definition advance (s : CharPointer) : CharPointer := tl s.

(** [s[i]] *)
Definition at_index (s : CharPointer) (i : nat) : juce_wchar := nth i s 0.

(** [s.getAndAdvance()] *)
Definition getAndAdvance (s : CharPointer) : juce_wchar * CharPointer :=
  (deref s, advance s).

(** [s.length()]: the number of code points before the terminator. *)
Fixpoint length_ (s : CharPointer) : Z :=
  match s with
  | [] => 0
  | c :: s' => if c =? 0 then 0 else 1 + length_ s'
  end.

(** The code points of a string literal. *)
Fixpoint chars (s : string) : CharPointer :=
  match s with
  | EmptyString => []
  | String a s' => Z.of_N (N_of_ascii a) :: chars s'
  end.

(** A text holds code points that are not the terminator and that the cast
    [(int) c] leaves unchanged. *)
Definition validCodePoint (c : juce_wchar) : Prop := 0 < c < 2 ^ 31.
Definition validText (s : CharPointer) : Prop := Forall validCodePoint s.

(** ** Fixed-width integers *)

(** A signed integer of [w] bits, as a [Z] reduced into
    [-2^(w-1) .. 2^(w-1) - 1]. *)
Definition wrap (w : Z) (z : Z) : Z :=
  (z + 2 ^ (w - 1)) mod 2 ^ w - 2 ^ (w - 1).

(** [int] *)
Definition wrap32 (z : Z) : Z := wrap 32 z.

(** The integer types [getIntValue] is instantiated with. *)
Inductive IntType := int8 | int16 | int32 | int64.

Definition bits (T : IntType) : Z :=
  match T with int8 => 8 | int16 => 16 | int32 => 32 | int64 => 64 end.

Definition minValue (T : IntType) : Z := - 2 ^ (bits T - 1).
Definition maxValue (T : IntType) : Z := 2 ^ (bits T - 1) - 1.

(** [(IntType) z] *)
Definition cast (T : IntType) (z : Z) : Z := wrap (bits T) z.

(** ** IEEE-754 binary64 *)

Definition double := spec_float.
Definition prec := 53.
Definition emax := 1024.

Definition dadd : double -> double -> double := SFadd prec emax.
Definition dmul : double -> double -> double := SFmul prec emax.
Definition ddiv : double -> double -> double := SFdiv prec emax.
Definition dneg : double -> double := SFopp.
(** [a > b] *)
Definition dgt (a b : double) : bool := SFltb b a.
(** [a == b] *)
Definition deq (a b : double) : bool := SFeqb a b.
(** [(double) z] for an integer [z] *)
Definition of_int (z : Z) : double := binary_normalize prec emax z 0 false.

Definition pos_zero : double := S754_zero false.
Definition neg_zero : double := S754_zero true.
Definition quiet_NaN : double := S754_nan.
Definition infinity : double := S754_infinity false.
Definition neg_infinity : double := S754_infinity true.

(** ** Character classes used to instantiate the development *)

(** Modelled from the spec: [CharacterFunctions::isDigit] is declared in the
    header and defined elsewhere; the spec speaks of ASCII digit code points. *)
Definition asciiIsDigit (c : juce_wchar) : bool := (48 <=? c) && (c <=? 57).

(** Modelled from the spec: [CharacterFunctions::isWhitespace] is declared in
    the header and defined elsewhere; the spec only calls it the whitespace
    classification.  This instance takes the space and the control characters
    tab .. carriage return. *)
Definition asciiIsWhitespace (c : juce_wchar) : bool :=
  (c =? 32) || ((9 <=? c) && (c <=? 13)).

(** Modelled from the spec: [mulexp10] is private, declared in the header and
    defined elsewhere; the spec describes it as multiplying by ten to the
    power of the exponent. *)
Definition mulexp10_pow (value : double) (exponent : Z) : double :=
  if exponent <? 0 then ddiv value (of_int (10 ^ (- exponent)))
  else dmul value (of_int (10 ^ exponent)).

(** Modelled from the spec: [getBytesRequiredFor] belongs to the destination
    pointer class; this instance is the UTF-8 footprint of a code point. *)
Definition utf8BytesRequiredFor (c : juce_wchar) : Z :=
  if c <? 128 then 1 else if c <? 2048 then 2 else if c <? 65536 then 3 else 4.

(** ** Notions the statements are phrased with *)

(** The value of a sequence of ASCII digits, as a mathematical integer. *)
Definition decimalValue (ds : list juce_wchar) : Z :=
  fold_left (fun v c => v * 10 + (c - 48)) ds 0.

Definition isAsciiDigit (c : juce_wchar) : Prop := 48 <= c <= 57.

(** ASCII case folding of a code point. *)
Definition asciiFold (c : juce_wchar) : juce_wchar :=
  if (65 <=? c) && (c <=? 90) then c + 32 else c.

(** [needle] occurs in [haystack] at code-point offset [i]. *)
Definition matchesAt (haystack needle : CharPointer) (i : nat) : Prop :=
  firstn (List.length needle) (skipn i haystack) = needle.

(** The code points of a text followed by its terminator. *)
Definition withTerminator (s : CharPointer) : list juce_wchar := s ++ [0].

(** The number of bytes a sequence of code points takes in the destination. *)
Definition bytesOf (bytesFor : juce_wchar -> Z) (l : list juce_wchar) : Z :=
  fold_right (fun c n => bytesFor c + n) 0 l.

(** The number of digit code points a text starts with. *)
Fixpoint leadingDigits (isDigit : juce_wchar -> bool) (s : CharPointer) : nat :=
  match s with
  | [] => O
  | c :: s' => if isDigit c then S (leadingDigits isDigit s') else O
  end.

(** ** Calls that receive the text by reference to const

    [getDoubleValue] and [getIntValue] take [const CharPointerType& text].
    The state threaded through such a call is the caller's pointer; the only
    operation the callee has on it is reading it. *)
Definition ConstRefCall (A : Type) : Type := CharPointer -> A * CharPointer.

Definition ret {A} (a : A) : ConstRefCall A := fun text => (a, text).

Definition bind {A B} (m : ConstRefCall A) (k : A -> ConstRefCall B)
  : ConstRefCall B :=
  fun text => let (a, text') := m text in k a text'.

Definition readText : ConstRefCall CharPointer := fun text => (text, text).

(** [int] arithmetic *)
Definition incr (x : Z) : Z := wrap32 (x + 1).
Definition decr (x : Z) : Z := wrap32 (x - 1).

(** A two-element array indexed by [decPointIndex]. *)
Definition sel {A} (i : Z) (a : A * A) : A := if i =? 0 then fst a else snd a.
Definition upd {A} (i : Z) (v : A) (a : A * A) : A * A :=
  if i =? 0 then (v, snd a) else (fst a, v).

(** The locals of [getDoubleValue] that live across the digit loop;
    [result[2]] is never accessed. *)
Record ScanState := mkScan {
  scan_s : CharPointer;
  result : double * double;
  accumulator : double * double;
  exponentAdjustment : Z * Z;
  exponentAccumulator : Z * Z;
  decPointIndex : Z;
  digit : Z;
  lastDigit : Z;
  numSignificantDigits : Z;
  digitsFound : bool
}.

Definition maxSignificantDigits : Z := 15 + 2.

(** [(double) ((std::numeric_limits<unsigned int>::max() - 9) / 10)] *)
Definition maxAccumulatorValue : double := of_int ((4294967295 - 9) / 10).

Definition initialScan (s : CharPointer) : ScanState :=
  mkScan s (pos_zero, pos_zero) (pos_zero, pos_zero) (0, 0) (-1, -1)
         0 0 0 0 false.

Section CharacterFunctions.

(** [CharacterFunctions::isWhitespace], [CharacterFunctions::isDigit] and
    [CharacterFunctions::mulexp10] are declared in the header and defined
    elsewhere; [getBytesRequiredFor] belongs to the destination pointer. *)
Variable isWhitespace : juce_wchar -> bool.
Variable isDigit : juce_wchar -> bool.
Variable mulexp10 : double -> Z -> double.
Variable getBytesRequiredFor : juce_wchar -> Z.

(** [p.isWhitespace()] and [s.isDigit()]: the class of the current code
    point; the terminator belongs to neither class. *)
Definition ptrIsWhitespace (p : CharPointer) : bool :=
  match p with [] => false | c :: _ => isWhitespace c end.

Definition ptrIsDigit (s : CharPointer) : bool :=
  match s with [] => false | c :: _ => isDigit c end.

(** ** findEndOfWhitespace *)

Fixpoint findEndOfWhitespace (p : CharPointer) : CharPointer :=
  match p with
  | [] => []
  | c :: p' => if ptrIsWhitespace p then findEndOfWhitespace p' else p
  end.

(** ** getIntValue *)

(** The [for (;;)] loop: the value and the local pointer on leaving it. *)
Fixpoint getIntValue_loop (T : IntType) (v : Z) (s : CharPointer)
  : Z * CharPointer :=
  let (c, s1) := getAndAdvance s in
  if (48 <=? c) && (c <=? 57) then
    match s with
    | [] => (v, s1)
    | _ :: s' => getIntValue_loop T (cast T (v * 10 + cast T (c - 48))) s'
    end
  else (v, s1).

(** The returned value together with the final position of the local [s]. *)
Definition getIntValue_scan (T : IntType) (text : CharPointer)
  : Z * CharPointer :=
  let s := findEndOfWhitespace text in
  let isNeg := deref s =? 45 in
  let s := if isNeg then advance s else s in
  let (v, s) := getIntValue_loop T 0 s in
  (if isNeg then cast T (- v) else v, s).

Definition getIntValue (T : IntType) (text : CharPointer) : Z :=
  fst (getIntValue_scan T text).

Definition call_getIntValue (T : IntType) : ConstRefCall Z :=
  bind readText (fun text => ret (getIntValue T text)).

(** ** compare, compareUpTo *)

Fixpoint compare (s1 s2 : CharPointer) : Z :=
  let c1 := wrap32 (deref s1) in
  let c2 := wrap32 (deref s2) in
  let diff := wrap32 (c1 - c2) in
  if negb (diff =? 0) then (if diff <? 0 then -1 else 1)
  else if c1 =? 0 then 0
  else match s1 with
       | [] => 0
       | _ :: s1' => compare s1' (advance s2)
       end.

Fixpoint compareUpTo (s1 s2 : CharPointer) (maxChars : Z) : Z :=
  let maxChars := decr maxChars in
  if maxChars >=? 0 then
    let c1 := wrap32 (deref s1) in
    let c2 := wrap32 (deref s2) in
    let diff := wrap32 (c1 - c2) in
    if negb (diff =? 0) then (if diff <? 0 then -1 else 1)
    else if c1 =? 0 then 0
    else match s1 with
         | [] => 0
         | _ :: s1' => compareUpTo s1' (advance s2) maxChars
         end
  else 0.

(** ** indexOf *)

Fixpoint indexOf_loop (haystack needle : CharPointer) (needleLength index : Z)
  : Z :=
  if compareUpTo haystack needle needleLength =? 0 then index
  else if fst (getAndAdvance haystack) =? 0 then -1
  else match haystack with
       | [] => -1
       | _ :: haystack' => indexOf_loop haystack' needle needleLength (incr index)
       end.

Definition indexOf (haystack needle : CharPointer) : Z :=
  indexOf_loop haystack needle (wrap32 (length_ needle)) 0.

(** ** copyAndAdvanceUpToBytes *)

(** [dest] is the sequence of code points written so far; the result is the
    destination and [numBytesDone]. *)
Fixpoint copyAndAdvanceUpToBytes_loop (dest : list juce_wchar)
    (src : CharPointer) (maxBytes numBytesDone : Z) : list juce_wchar * Z :=
  let (c, src1) := getAndAdvance src in
  let bytesNeeded := getBytesRequiredFor c in
  let maxBytes := wrap32 (maxBytes - bytesNeeded) in
  if maxBytes <? 0 then (dest, numBytesDone)
  else
    let numBytesDone := wrap32 (numBytesDone + bytesNeeded) in
    let dest := dest ++ [c] in
    if c =? 0 then (dest, numBytesDone)
    else match src with
         | [] => (dest, numBytesDone)
         | _ :: src' => copyAndAdvanceUpToBytes_loop dest src' maxBytes numBytesDone
         end.

Definition copyAndAdvanceUpToBytes (src : CharPointer) (maxBytes : Z)
  : list juce_wchar * Z :=
  copyAndAdvanceUpToBytes_loop [] src maxBytes 0.

(** ** getDoubleValue *)

(** [while (s.isDigit()) { ++s; if (decPointIndex == 0) exponentAdjustment[0]++; }] *)
Fixpoint skipDigitsAdjusting (decPoint : Z) (s : CharPointer) (adjust0 : Z)
  : CharPointer * Z :=
  match s with
  | [] => (s, adjust0)
  | _ :: s' =>
      if ptrIsDigit s
      then skipDigitsAdjusting decPoint s'
             (if decPoint =? 0 then incr adjust0 else adjust0)
      else (s, adjust0)
  end.

(** [while (s.isDigit()) ++s;] *)
Fixpoint skipDigits (s : CharPointer) : CharPointer :=
  match s with
  | [] => s
  | _ :: s' => if ptrIsDigit s then skipDigits s' else s
  end.

(** The rounding of the accumulator by the first digit beyond the cap. *)
Definition roundsUp (digit lastDigit : Z) : bool :=
  if digit >? 5 then true
  else if (digit =? 5) && negb (Z.land lastDigit 1 =? 0) then true
  else false.

(** One pass through the body of the digit loop: [true] when the loop goes
    round again, [false] on [break]. *)
Definition scanStep (st : ScanState) : bool * ScanState :=
  let s := scan_s st in
  let dp := decPointIndex st in
  if ptrIsDigit s then
    let lastDigit' := digit st in
    let (c, s1) := getAndAdvance s in
    let digit' := wrap32 (c - 48) in
    let adj :=
      if negb (dp =? 0)
      then (fst (exponentAdjustment st), incr (snd (exponentAdjustment st)))
      else exponentAdjustment st in
    if (numSignificantDigits st =? 0) && (digit' =? 0) then
      (true, mkScan s1 (result st) (accumulator st) adj
                    (exponentAccumulator st) dp digit' lastDigit'
                    (numSignificantDigits st) true)
    else
      let nsd := incr (numSignificantDigits st) in
      if nsd >? maxSignificantDigits then
        let acc :=
          if roundsUp digit' lastDigit'
          then upd dp (dadd (sel dp (accumulator st)) (of_int 1)) (accumulator st)
          else accumulator st in
        let adj :=
          if dp >? 0 then (fst adj, decr (snd adj))
          else (incr (fst adj), snd adj) in
        let (s2, adj0) := skipDigitsAdjusting dp s1 (fst adj) in
        (true, mkScan s2 (result st) acc (adj0, snd adj)
                      (exponentAccumulator st) dp digit' lastDigit' nsd true)
      else
        let flush := dgt (sel dp (accumulator st)) maxAccumulatorValue in
        let res :=
          if flush
          then upd dp (dadd (mulexp10 (sel dp (result st))
                                      (sel dp (exponentAccumulator st)))
                            (sel dp (accumulator st))) (result st)
          else result st in
        let acc := if flush then upd dp pos_zero (accumulator st)
                   else accumulator st in
        let eacc := if flush then upd dp 0 (exponentAccumulator st)
                    else exponentAccumulator st in
        let acc := upd dp (dadd (dmul (sel dp acc) (of_int 10)) (of_int digit'))
                       acc in
        let eacc := upd dp (incr (sel dp eacc)) eacc in
        (true, mkScan s1 res acc adj eacc dp digit' lastDigit' nsd true)
  else if (dp =? 0) && (deref s =? 46) then
    let s1 := advance s in
    if numSignificantDigits st >? maxSignificantDigits then
      (false, mkScan (skipDigits s1) (result st) (accumulator st)
                     (exponentAdjustment st) (exponentAccumulator st) 1
                     (digit st) (lastDigit st) (numSignificantDigits st)
                     (digitsFound st))
    else
      (true, mkScan s1 (result st) (accumulator st)
                    (exponentAdjustment st) (exponentAccumulator st) 1
                    (digit st) (lastDigit st) (numSignificantDigits st)
                    (digitsFound st))
  else (false, st).

(** The digit loop [for (;;)]; [None] when the fuel does not suffice. *)
Fixpoint scanLoop (fuel : nat) (st : ScanState) : option ScanState :=
  match fuel with
  | O => None
  | S fuel' =>
      let (again, st') := scanStep st in
      if again then scanLoop fuel' st' else Some st'
  end.

(** [while (s.isDigit()) exponent = (exponent * 10) + (s.getAndAdvance() - '0');] *)
Fixpoint exponentDigits (s : CharPointer) (exponent : Z) : Z * CharPointer :=
  match s with
  | [] => (exponent, s)
  | c :: s' =>
      if ptrIsDigit s
      then exponentDigits s' (wrap32 (wrap32 (exponent * 10) + wrap32 (c - 48)))
      else (exponent, s)
  end.

(** The part after the digit loop, up to the [return]. *)
Definition finishScan (isNegative : bool) (st : ScanState)
  : double * CharPointer :=
  let dp := decPointIndex st in
  let result0 :=
    dadd (mulexp10 (fst (result st)) (fst (exponentAccumulator st)))
         (fst (accumulator st)) in
  let result1 :=
    if negb (dp =? 0)
    then dadd (mulexp10 (snd (result st)) (snd (exponentAccumulator st)))
              (snd (accumulator st))
    else snd (result st) in
  let s := scan_s st in
  let c := deref s in
  let (exponent, s) :=
    if ((c =? 101) || (c =? 69)) && digitsFound st then
      let s := advance s in
      let c' := deref s in
      let negativeExponent := c' =? 45 in
      let s := if (c' =? 45) || (c' =? 43) then advance s else s in
      let (exponent, s) := exponentDigits s 0 in
      (if negativeExponent then wrap32 (- exponent) else exponent, s)
    else (0, s) in
  let r := mulexp10 result0 (wrap32 (exponent + fst (exponentAdjustment st))) in
  let r :=
    if negb (dp =? 0)
    then dadd r (mulexp10 result1
                          (wrap32 (exponent - snd (exponentAdjustment st))))
    else r in
  (if isNegative then dneg r else r, s).

(** The two [switch] statements at the start: the sign, the pointer after it
    and the special value returned early, if any. *)
Definition readSign (s : CharPointer) : bool * CharPointer :=
  let c := deref s in
  if c =? 45 then (true, advance s)
  else if c =? 43 then (false, advance s)
  else (false, s).

Definition special (s : CharPointer) : option double :=
  let c := deref s in
  if (c =? 110) || (c =? 78) then
    if ((at_index s 1 =? 97) || (at_index s 1 =? 65))
       && ((at_index s 2 =? 110) || (at_index s 2 =? 78))
    then Some quiet_NaN else None
  else if (c =? 105) || (c =? 73) then
    if ((at_index s 1 =? 110) || (at_index s 1 =? 78))
       && ((at_index s 2 =? 102) || (at_index s 2 =? 70))
    then Some infinity else None
  else None.

(** The returned value together with the final position of the local [s];
    [None] only if the digit loop were to run out of fuel. *)
Definition getDoubleValue_scan (text : CharPointer)
  : option (double * CharPointer) :=
  let s := findEndOfWhitespace text in
  let (isNegative, s) := readSign s in
  match special s with
  | Some v => Some (v, s)
  | None =>
      match scanLoop (S (List.length s)) (initialScan s) with
      | Some st => Some (finishScan isNegative st)
      | None => None
      end
  end.

Definition getDoubleValue (text : CharPointer) : option double :=
  option_map fst (getDoubleValue_scan text).

Definition call_getDoubleValue : ConstRefCall (option double) :=
  bind readText (fun text => ret (getDoubleValue text)).

End CharacterFunctions.

(** ** The remaining lexical primitives *)

(** [s.isEmpty()] *)
Definition isEmpty (s : CharPointer) : bool := deref s =? 0.

(** [copyAndAdvance]: the code points written to [dest]. *)
Fixpoint copyAndAdvance_loop (dest : list juce_wchar) (src : CharPointer)
  : list juce_wchar :=
  let (c, _) := getAndAdvance src in
  let dest := dest ++ [c] in
  if negb (c =? 0) then
    match src with
    | [] => dest
    | _ :: src' => copyAndAdvance_loop dest src'
    end
  else dest.

Definition copyAndAdvance (src : CharPointer) : list juce_wchar :=
  copyAndAdvance_loop [] src.

(** [copyAndAdvanceUpToNumChars]: the code points written to [dest]. *)
Fixpoint copyAndAdvanceUpToNumChars_loop (dest : list juce_wchar)
    (src : CharPointer) (maxChars : Z) : list juce_wchar :=
  let maxChars := decr maxChars in
  if maxChars >=? 0 then
    let (c, _) := getAndAdvance src in
    let dest := dest ++ [c] in
    if c =? 0 then dest
    else match src with
         | [] => dest
         | _ :: src' => copyAndAdvanceUpToNumChars_loop dest src' maxChars
         end
  else dest.

Definition copyAndAdvanceUpToNumChars (src : CharPointer) (maxChars : Z)
  : list juce_wchar :=
  copyAndAdvanceUpToNumChars_loop [] src maxChars.

(** [indexOfChar] *)
Fixpoint indexOfChar_loop (text : CharPointer) (charToFind : juce_wchar)
    (i : Z) : Z :=
  if negb (isEmpty text) then
    if fst (getAndAdvance text) =? charToFind then i
    else match text with
         | [] => -1
         | _ :: text' => indexOfChar_loop text' charToFind (incr i)
         end
  else -1.

Definition indexOfChar (text : CharPointer) (charToFind : juce_wchar) : Z :=
  indexOfChar_loop text charToFind 0.

Section CaseFolding.

(** [CharacterFunctions::toUpperCase] and [CharacterFunctions::toLowerCase]
    are declared in the header and defined elsewhere. *)
Variable toUpperCase : juce_wchar -> juce_wchar.
Variable toLowerCase : juce_wchar -> juce_wchar.

(** [s.toUpperCase()] and [s.toLowerCase()]: the folded current code point;
    the terminator folds to itself. *)
Definition ptrToUpperCase (s : CharPointer) : juce_wchar :=
  match s with [] => 0 | c :: _ => toUpperCase c end.

Definition ptrToLowerCase (s : CharPointer) : juce_wchar :=
  match s with [] => 0 | c :: _ => toLowerCase c end.

Fixpoint compareIgnoreCase (s1 s2 : CharPointer) : Z :=
  let c1 := wrap32 (ptrToUpperCase s1) in
  let c2 := wrap32 (ptrToUpperCase s2) in
  let diff := wrap32 (c1 - c2) in
  if negb (diff =? 0) then (if diff <? 0 then -1 else 1)
  else if c1 =? 0 then 0
  else match s1 with
       | [] => 0
       | _ :: s1' => compareIgnoreCase s1' (advance s2)
       end.

Fixpoint compareIgnoreCaseUpTo (s1 s2 : CharPointer) (maxChars : Z) : Z :=
  let maxChars := decr maxChars in
  if maxChars >=? 0 then
    let c1 := wrap32 (ptrToUpperCase s1) in
    let c2 := wrap32 (ptrToUpperCase s2) in
    let diff := wrap32 (c1 - c2) in
    if negb (diff =? 0) then (if diff <? 0 then -1 else 1)
    else if c1 =? 0 then 0
    else match s1 with
         | [] => 0
         | _ :: s1' => compareIgnoreCaseUpTo s1' (advance s2) maxChars
         end
  else 0.

Fixpoint indexOfCharIgnoreCase_loop (text : CharPointer)
    (charToFind : juce_wchar) (i : Z) : Z :=
  if negb (isEmpty text) then
    if ptrToLowerCase text =? charToFind then i
    else match text with
         | [] => -1
         | _ :: text' => indexOfCharIgnoreCase_loop text' charToFind (incr i)
         end
  else -1.

Definition indexOfCharIgnoreCase (text : CharPointer)
    (charToFind : juce_wchar) : Z :=
  indexOfCharIgnoreCase_loop text (toLowerCase charToFind) 0.

End CaseFolding.

(** Modelled from the spec: [toUpperCase] and [toLowerCase] are declared in
    the header and defined elsewhere; these instances fold the ASCII
    letters. *)
Definition asciiToUpperCase (c : juce_wchar) : juce_wchar :=
  if (97 <=? c) && (c <=? 122) then c - 32 else c.

Definition asciiToLowerCase (c : juce_wchar) : juce_wchar := asciiFold c.

(** The code points of a text before its terminator. *)
Fixpoint textBeforeTerminator (s : CharPointer) : list juce_wchar :=
  match s with
  | [] => []
  | c :: s' => if c =? 0 then [] else c :: textBeforeTerminator s'
  end.

(** [s] is a position of [text] at or after its start. *)
Definition isSuffixOf (s text : CharPointer) : Prop :=
  exists n, s = skipn n text.

(** The locals [st] with the pointer moved to [s]. *)
Definition setPointer (st : ScanState) (s : CharPointer) : ScanState :=
  mkScan s (result st) (accumulator st) (exponentAdjustment st)
         (exponentAccumulator st) (decPointIndex st) (digit st) (lastDigit st)
         (numSignificantDigits st) (digitsFound st).

(** The locals while only zeros have been read: nothing accumulated, [k]
    digits counted after the decimal point. *)
Definition zeroScan (s : CharPointer) (dp k d ld : Z) (found : bool)
  : ScanState :=
  mkScan s (pos_zero, pos_zero) (pos_zero, pos_zero) (0, k) (-1, -1)
         dp d ld 0 found.

(** [s.getAndAdvance() - '0'] for the code point [c]. *)
Definition digitValue (c : juce_wchar) : Z := wrap32 (c - 48).

(** The digits of a number from its first non-zero digit on, and their
    count: the significant digits. *)
Fixpoint dropLeadingZeros (ds : list juce_wchar) : list juce_wchar :=
  match ds with
  | [] => []
  | c :: ds' => if digitValue c =? 0 then dropLeadingZeros ds' else ds
  end.

Definition significantDigits (ds : list juce_wchar) : nat :=
  List.length (dropLeadingZeros ds).

(** [x] raised by one exactly when the dropped digit [d] is greater than 5,
    or is 5 and the last retained digit [last] is odd. *)
Definition roundedUp (d last : Z) (x : double) : double :=
  if (d >? 5) || ((d =? 5) && Z.odd last) then dadd x (of_int 1) else x.

(** The order of two sequences of code points by their first difference,
    a proper prefix coming first. *)
Fixpoint lexCompare (a b : list juce_wchar) : comparison :=
  match a, b with
  | [], [] => Eq
  | [], _ :: _ => Lt
  | _ :: _, [] => Gt
  | x :: a', y :: b' =>
      match x ?= y with
      | Eq => lexCompare a' b'
      | Lt => Lt
      | Gt => Gt
      end
  end.

Definition signOf (c : comparison) : Z :=
  match c with Lt => -1 | Eq => 0 | Gt => 1 end.

(** The offset of the first code point of [text] that satisfies [p]. *)
Fixpoint firstIndex (p : juce_wchar -> bool) (text : list juce_wchar)
  : option nat :=
  match text with
  | [] => None
  | c :: text' => if p c then Some O else option_map S (firstIndex p text')
  end.

Definition indexOrMinusOne (r : option nat) : Z :=
  match r with Some i => Z.of_nat i | None => -1 end.

(** ** Further notions for the statements *)

(** [while] the pointer is at an ASCII digit, advance. *)
Fixpoint skipAsciiDigits (s : CharPointer) : CharPointer :=
  match s with
  | [] => []
  | c :: s' => if (48 <=? c) && (c <=? 57) then skipAsciiDigits s' else s
  end.

(** The position the interface description gives for the pointer after
    [getIntValue]: the first code point that is not part of the numeric token,
    the token being the whitespace, an optional ['-'] and the digits. *)
Definition spec_afterIntegerToken (isWhitespace : juce_wchar -> bool)
    (text : CharPointer) : CharPointer :=
  let s := findEndOfWhitespace isWhitespace text in
  skipAsciiDigits (if deref s =? 45 then advance s else s).

(** The state after [n] passes through the body of the digit loop. *)
Definition scanSteps (isDigit : juce_wchar -> bool)
    (mulexp10 : double -> Z -> double) (n : nat) (st : ScanState) : ScanState :=
  Nat.iter n (fun st => snd (scanStep isDigit mulexp10 st)) st.

(** The state in which the digit loop finds itself on [1234567890123456789x]
    after 17 passes. *)
Definition stateAfter17Digits : ScanState :=
  scanSteps asciiIsDigit mulexp10_pow 17
            (initialScan (chars "1234567890123456789x")).

(** * Properties *)

(** ** Fixed-width arithmetic *)

(** Case analysis on every integer test of the goal. *)
Ltac zcases :=
  repeat match goal with
         | |- context [?a =? ?b] => destruct (Z.eqb_spec a b)
         | |- context [?a <? ?b] => destruct (Z.ltb_spec a b)
         | |- context [?a <=? ?b] => destruct (Z.leb_spec a b)
         | |- context [?a >? ?b] =>
             rewrite (Z.gtb_ltb a b); destruct (Z.ltb_spec b a)
         | |- context [?a >=? ?b] =>
             rewrite (Z.geb_leb a b); destruct (Z.leb_spec b a)
         end.

Lemma wrap32_small z : - 2 ^ 31 <= z < 2 ^ 31 -> wrap32 z = z.
Proof.
  intros H. unfold wrap32, wrap.
  change (2 ^ (32 - 1)) with 2147483648 in *.
  change (2 ^ 32) with 4294967296.
  change (2 ^ 31) with 2147483648 in H.
  rewrite Z.mod_small; lia.
Qed.

Lemma pow_bits_split T : 2 ^ bits T = 2 * 2 ^ (bits T - 1).
Proof. destruct T; reflexivity. Qed.

Lemma cast_range T z : minValue T <= cast T z <= maxValue T.
Proof.
  unfold cast, wrap, minValue, maxValue.
  pose proof (pow_bits_split T) as Hs.
  assert (0 < 2 ^ (bits T - 1)) by (destruct T; reflexivity).
  pose proof (Z.mod_pos_bound (z + 2 ^ (bits T - 1)) (2 ^ bits T)). lia.
Qed.

Lemma cast_small T z : minValue T <= z <= maxValue T -> cast T z = z.
Proof.
  unfold cast, wrap, minValue, maxValue. intros H.
  pose proof (pow_bits_split T) as Hs.
  rewrite Z.mod_small; lia.
Qed.

(** [cast T] is the identity modulo [2 ^ bits T]. *)
Lemma cast_congr T a b :
  a mod 2 ^ bits T = b mod 2 ^ bits T -> cast T a = cast T b.
Proof.
  intros H. unfold cast, wrap.
  rewrite <- (Zplus_mod_idemp_l a), H, Zplus_mod_idemp_l. reflexivity.
Qed.

Lemma cast_mod T a : cast T a mod 2 ^ bits T = a mod 2 ^ bits T.
Proof.
  unfold cast, wrap.
  rewrite <- Zminus_mod_idemp_l, Z.mod_mod by (destruct T; discriminate).
  rewrite Zminus_mod_idemp_l. f_equal. lia.
Qed.

Lemma cast_step T v d :
  cast T (cast T v * 10 + cast T d) = cast T (v * 10 + d).
Proof.
  apply cast_congr.
  rewrite Z.add_mod, Z.mul_mod, !cast_mod by (destruct T; discriminate).
  rewrite <- Z.mul_mod, <- Z.add_mod by (destruct T; discriminate).
  reflexivity.
Qed.

Lemma cast_idem T v : cast T (cast T v) = cast T v.
Proof. apply cast_small, cast_range. Qed.

Lemma cast_add_r T a b : cast T (a + cast T b) = cast T (a + b).
Proof.
  apply cast_congr.
  rewrite Z.add_mod, cast_mod, <- Z.add_mod by (destruct T; discriminate).
  reflexivity.
Qed.

Lemma cast_opp T v : cast T (- cast T v) = cast T (- v).
Proof.
  apply cast_congr.
  replace (- cast T v) with (0 - cast T v) by lia.
  replace (- v) with (0 - v) by lia.
  rewrite Zminus_mod, cast_mod, <- Zminus_mod. reflexivity.
Qed.

Section Properties.

Variable isWhitespace : juce_wchar -> bool.
Variable isDigit : juce_wchar -> bool.
Variable mulexp10 : double -> Z -> double.
Variable getBytesRequiredFor : juce_wchar -> Z.

(** ** findEndOfWhitespace *)

Lemma findEndOfWhitespace_app ws text :
  Forall (fun c => isWhitespace c = true) ws ->
  findEndOfWhitespace isWhitespace (ws ++ text)
  = findEndOfWhitespace isWhitespace text.
Proof.
  induction 1 as [|c ws Hc _ IH]; [reflexivity|].
  simpl. rewrite Hc. exact IH.
Qed.

(** ** getIntValue *)

Lemma decimal_fold_congr T ds : forall a b,
  cast T a = cast T b ->
  cast T (fold_left (fun v c => v * 10 + (c - 48)) ds a)
  = cast T (fold_left (fun v c => v * 10 + (c - 48)) ds b).
Proof.
  induction ds as [|c ds IH]; intros a b Hab; [exact Hab|].
  simpl. apply IH.
  rewrite <- (cast_step T a), <- (cast_step T b), Hab. reflexivity.
Qed.

Lemma getIntValue_loop_range T s : forall v,
  minValue T <= v <= maxValue T ->
  minValue T <= fst (getIntValue_loop T v s) <= maxValue T.
Proof.
  induction s as [|c s IH]; intros v Hv.
  - simpl. exact Hv.
  - simpl. destruct ((48 <=? c) && (c <=? 57)); [|exact Hv].
    apply IH, cast_range.
Qed.

Lemma getIntValue_loop_digits T ds rest : forall v,
  Forall isAsciiDigit ds -> ~ isAsciiDigit (deref rest) ->
  cast T (fst (getIntValue_loop T v (ds ++ rest)))
  = cast T (fold_left (fun v c => v * 10 + (c - 48)) ds v)
  /\ snd (getIntValue_loop T v (ds ++ rest)) = advance rest.
Proof.
  intros v Hds Hrest. revert v.
  induction Hds as [|c ds Hc _ IH]; intros v.
  - simpl. unfold isAsciiDigit in Hrest.
    destruct rest as [|r rest]; simpl in *.
    + split; reflexivity.
    + destruct (Z.leb_spec 48 r), (Z.leb_spec r 57); simpl;
        try (split; reflexivity); lia.
  - unfold isAsciiDigit in Hc. simpl.
    destruct (Z.leb_spec 48 c), (Z.leb_spec c 57); try lia. simpl.
    destruct (IH (cast T (v * 10 + cast T (c - 48)))) as [IH1 IH2].
    split; [|exact IH2].
    rewrite IH1. apply decimal_fold_congr.
    rewrite cast_idem. apply cast_add_r.
Qed.

(** C6. [getIntValue] skips leading whitespace, consumes an optional ['-']
    (and treats ['+'] like any other non-digit), folds the ASCII digits as
    [v * 10 + digit] in the arithmetic of the integer type, so that the
    result is the decimal value reduced modulo [2 ^ bits T], applies the sign
    last, and returns 0 when there is no digit; for [int32] the digits
    [2147483648] give the minimum value. *)
Theorem getIntValue_spec (T : IntType) (text ds rest : CharPointer) :
  let s := findEndOfWhitespace isWhitespace text in
  let isNeg := deref s =? 45 in
  (if isNeg then advance s else s) = ds ++ rest ->
  Forall isAsciiDigit ds ->
  ~ isAsciiDigit (deref rest) ->
  getIntValue isWhitespace T text
  = cast T ((if isNeg then -1 else 1) * decimalValue ds)
  /\ (forall ws, Forall (fun c => isWhitespace c = true) ws ->
      getIntValue isWhitespace T (ws ++ text) = getIntValue isWhitespace T text)
  /\ (deref s = 43 -> getIntValue isWhitespace T text = 0)
  /\ (ds = [] -> getIntValue isWhitespace T text = 0)
  /\ (T = int32 -> isNeg = false -> ds = chars "2147483648" ->
      getIntValue isWhitespace T text = minValue int32).
Proof.
  intros s isNeg Hs Hds Hrest.
  assert (Hmain : getIntValue isWhitespace T text
                  = cast T ((if isNeg then -1 else 1) * decimalValue ds)).
  { unfold getIntValue, getIntValue_scan. fold s. fold isNeg. rewrite Hs.
    destruct (getIntValue_loop_digits T ds rest 0 Hds Hrest) as [Hv _].
    pose proof (getIntValue_loop_range T (ds ++ rest) 0) as Hr.
    destruct (getIntValue_loop T 0 (ds ++ rest)) as [v s'].
    simpl in *.
    assert (H0 : minValue T <= 0 <= maxValue T) by (destruct T; cbv; split; discriminate).
    specialize (Hr H0).
    rewrite (cast_small T v Hr) in Hv.
    fold (decimalValue ds) in Hv.
    destruct isNeg.
    - rewrite Hv, cast_opp. f_equal; lia.
    - rewrite Hv. f_equal; lia. }
  split; [exact Hmain|].
  split.
  { intros ws Hws. unfold getIntValue, getIntValue_scan.
    rewrite findEndOfWhitespace_app by exact Hws. reflexivity. }
  split.
  { intros Hplus. rewrite Hmain.
    assert (HisNeg : isNeg = false) by (unfold isNeg; rewrite Hplus; reflexivity).
    rewrite HisNeg in Hs |- *.
    destruct ds as [|d ds].
    - destruct T; reflexivity.
    - exfalso. rewrite Hs in Hplus. simpl in Hplus.
      inversion Hds as [|? ? Hd _]. unfold isAsciiDigit in Hd. lia. }
  split.
  { intros ->. rewrite Hmain. destruct T, isNeg; reflexivity. }
  intros -> HisNeg ->. rewrite Hmain, HisNeg. reflexivity.
Qed.

(** ** compare *)

Lemma wrap32_valid c : validCodePoint c -> wrap32 c = c.
Proof. unfold validCodePoint. intros H. apply wrap32_small. lia. Qed.

Lemma compare_range : forall a b,
  compare a b = -1 \/ compare a b = 0 \/ compare a b = 1.
Proof.
  induction a as [|c a IH]; intros b; simpl;
    repeat match goal with
           | |- context [if ?x then _ else _] => destruct x
           end; auto.
Qed.

Lemma compare_refl : forall a, compare a a = 0.
Proof.
  induction a as [|c a IH]; [reflexivity|].
  simpl. rewrite Z.sub_diag. change (wrap32 0) with 0. simpl.
  destruct (wrap32 c =? 0); [reflexivity | exact IH].
Qed.

Lemma compare_antisym : forall a b,
  validText a -> validText b -> compare a b = - Z.sgn (compare b a).
Proof.
  induction a as [|c1 a IH]; intros b Ha Hb.
  - destruct b as [|c2 b]; [reflexivity|].
    inversion Hb as [|? ? Hc2 Hb']; subst.
    cbn [compare deref hd advance tl].
    rewrite (wrap32_valid c2 Hc2). change (wrap32 0) with 0.
    unfold validCodePoint in Hc2.
    rewrite !wrap32_small by lia.
    zcases; cbn [negb]; zcases; try lia; reflexivity.
  - inversion Ha as [|? ? Hc1 Ha']; subst.
    destruct b as [|c2 b].
    + cbn [compare deref hd advance tl].
      rewrite (wrap32_valid c1 Hc1). change (wrap32 0) with 0.
      unfold validCodePoint in Hc1.
      rewrite !wrap32_small by lia.
      zcases; cbn [negb]; zcases; try lia; reflexivity.
    + inversion Hb as [|? ? Hc2 Hb']; subst.
      cbn [compare deref hd advance tl].
      rewrite (wrap32_valid c1 Hc1), (wrap32_valid c2 Hc2).
      unfold validCodePoint in Hc1, Hc2.
      rewrite !wrap32_small by lia.
      zcases; cbn [negb]; zcases; try lia; try reflexivity.
      apply IH; assumption.
Qed.

(** C7. [compare] returns -1, 0 or 1; a text compares equal to itself; and
    on texts of code points, swapping the arguments negates the result. *)
Theorem compare_spec :
  (forall a b, compare a b = -1 \/ compare a b = 0 \/ compare a b = 1)
  /\ (forall a, compare a a = 0)
  /\ (forall a b, validText a -> validText b ->
      compare a b = - Z.sgn (compare b a)).
Proof.
  split; [exact compare_range|].
  split; [exact compare_refl | exact compare_antisym].
Qed.

(** ** compareUpTo and indexOf *)

Lemma compareUpTo_unfold s1 s2 maxChars :
  compareUpTo s1 s2 maxChars
  = if decr maxChars >=? 0 then
      let c1 := wrap32 (deref s1) in
      let c2 := wrap32 (deref s2) in
      let diff := wrap32 (c1 - c2) in
      if negb (diff =? 0) then (if diff <? 0 then -1 else 1)
      else if c1 =? 0 then 0
      else match s1 with
           | [] => 0
           | _ :: s1' => compareUpTo s1' (advance s2) (decr maxChars)
           end
    else 0.
Proof. destruct s1; reflexivity. Qed.

Lemma decr_of_nat_S k :
  Z.of_nat (S k) < 2 ^ 31 -> decr (Z.of_nat (S k)) = Z.of_nat k.
Proof.
  intros H. unfold decr. rewrite wrap32_small; lia.
Qed.

Lemma length_valid s : validText s -> length_ s = Z.of_nat (List.length s).
Proof.
  induction 1 as [|c s Hc _ IH]; [reflexivity|].
  unfold validCodePoint in Hc.
  cbn [length_ List.length]. destruct (Z.eqb_spec c 0); lia.
Qed.

(** With the needle's length as bound, [compareUpTo] answers 0 exactly when
    the needle is a prefix of the text. *)
Lemma compareUpTo_prefix : forall needle h,
  validText needle -> validText h ->
  Z.of_nat (List.length needle) < 2 ^ 31 ->
  compareUpTo h needle (Z.of_nat (List.length needle)) = 0
  <-> firstn (List.length needle) h = needle.
Proof.
  induction needle as [|c2 n IH]; intros h Hn Hh Hlen.
  - rewrite compareUpTo_unfold. change (decr (Z.of_nat (List.length []))) with (-1).
    simpl. split; reflexivity.
  - inversion Hn as [|? ? Hc2 Hn']; subst.
    cbn [List.length] in Hlen |- *.
    rewrite compareUpTo_unfold, decr_of_nat_S by exact Hlen.
    cbn zeta.
    destruct (Z.geb_spec (Z.of_nat (List.length n)) 0); [|lia].
    cbn [deref hd].
    rewrite (wrap32_valid c2 Hc2). unfold validCodePoint in Hc2.
    destruct h as [|c1 h].
    + cbn [deref hd]. change (wrap32 0) with 0.
      rewrite wrap32_small by lia.
      zcases; cbn [negb]; zcases; try lia; simpl; split; discriminate.
    + inversion Hh as [|? ? Hc1 Hh']; subst.
      cbn [deref hd advance tl]. rewrite (wrap32_valid c1 Hc1).
      unfold validCodePoint in Hc1.
      rewrite wrap32_small by lia.
      cbn [List.length firstn].
      assert (Hlen' : Z.of_nat (List.length n) < 2 ^ 31) by lia.
      zcases; cbn [negb]; zcases; try lia.
      * replace c1 with c2 by lia.
        rewrite (IH h Hn' Hh' Hlen').
        split; [intros ->; reflexivity | intros Heq; inversion Heq; congruence].
      * split; [discriminate | intros Heq; inversion Heq; lia].
      * split; [discriminate | intros Heq; inversion Heq; lia].
Qed.

Lemma matchesAt_nil_haystack needle i :
  matchesAt [] needle i -> needle = [].
Proof.
  unfold matchesAt. rewrite skipn_nil, firstn_nil. auto.
Qed.

Lemma indexOf_loop_spec needle :
  validText needle -> Z.of_nat (List.length needle) < 2 ^ 31 ->
  forall h index,
    validText h -> 0 <= index ->
    index + Z.of_nat (List.length h) < 2 ^ 31 ->
    (forall i, matchesAt h needle i ->
               (forall j, (j < i)%nat -> ~ matchesAt h needle j) ->
               indexOf_loop h needle (Z.of_nat (List.length needle)) index
               = index + Z.of_nat i)
    /\ ((forall i, ~ matchesAt h needle i) ->
        indexOf_loop h needle (Z.of_nat (List.length needle)) index = -1).
Proof.
  intros Hn Hlen.
  induction h as [|c h IH]; intros index Hh Hidx Hbound.
  - pose proof (compareUpTo_prefix needle [] Hn Hh Hlen) as Hp.
    cbn [indexOf_loop getAndAdvance deref hd fst].
    destruct (Z.eqb_spec (compareUpTo [] needle (Z.of_nat (List.length needle))) 0)
      as [Hc|Hc].
    + apply Hp in Hc. split.
      * intros i _ Hfirst. destruct i as [|i]; [lia|].
        exfalso. apply (Hfirst O); [lia|]. exact Hc.
      * intros Hno. exfalso. apply (Hno O). exact Hc.
    + split; [|reflexivity].
      intros i Hi _. exfalso. apply Hc, Hp.
      apply matchesAt_nil_haystack in Hi. subst. reflexivity.
  - pose proof (compareUpTo_prefix needle (c :: h) Hn Hh Hlen) as Hp.
    inversion Hh as [|? ? Hc Hh']; subst.
    cbn [indexOf_loop getAndAdvance deref hd fst].
    destruct (Z.eqb_spec (compareUpTo (c :: h) needle
                            (Z.of_nat (List.length needle))) 0) as [Hm|Hm].
    + apply Hp in Hm. split.
      * intros i _ Hfirst. destruct i as [|i]; [lia|].
        exfalso. apply (Hfirst O); [lia|]. exact Hm.
      * intros Hno. exfalso. apply (Hno O). exact Hm.
    + unfold validCodePoint in Hc.
      destruct (Z.eqb_spec c 0); [lia|].
      cbn [List.length] in Hbound.
      assert (Hincr : incr index = index + 1)
        by (unfold incr; apply wrap32_small; lia).
      rewrite Hincr.
      destruct (IH (index + 1) Hh' ltac:(lia) ltac:(lia)) as [IH1 IH2].
      split.
      * intros i Hi Hfirst. destruct i as [|i].
        { exfalso. apply Hm, Hp. exact Hi. }
        rewrite (IH1 i); [lia | exact Hi |].
        intros j Hj. apply (Hfirst (S j)). lia.
      * intros Hno. apply IH2. intros i. apply (Hno (S i)).
Qed.

(** C8. [indexOf] returns the offset of the first position at which the
    needle occurs in the haystack, code point for code point; 0 for the empty
    needle whatever the haystack; and -1 when the needle occurs nowhere. *)
Theorem indexOf_spec (haystack needle : CharPointer) :
  validText haystack -> validText needle ->
  Z.of_nat (List.length haystack) < 2 ^ 31 ->
  Z.of_nat (List.length needle) < 2 ^ 31 ->
  (forall i, matchesAt haystack needle i ->
             (forall j, (j < i)%nat -> ~ matchesAt haystack needle j) ->
             indexOf haystack needle = Z.of_nat i)
  /\ ((forall i, ~ matchesAt haystack needle i) ->
      indexOf haystack needle = -1)
  /\ (forall h, indexOf h [] = 0)
  /\ indexOf (chars "abcdef") (chars "cd") = 2
  /\ indexOf (chars "abc") (chars "z") = -1.
Proof.
  intros Hh Hn Hlh Hln.
  assert (Hneedle : wrap32 (length_ needle) = Z.of_nat (List.length needle)).
  { rewrite length_valid by exact Hn. apply wrap32_small. lia. }
  destruct (indexOf_loop_spec needle Hn Hln haystack 0 Hh ltac:(lia) ltac:(lia))
    as [H1 H2].
  unfold indexOf. rewrite Hneedle.
  split; [intros i Hi Hfirst; rewrite (H1 i Hi Hfirst); lia|].
  split; [exact H2|].
  split; [intros h; destruct h; reflexivity|].
  split; reflexivity.
Qed.

(** ** copyAndAdvanceUpToBytes *)

Lemma copyAndAdvanceUpToBytes_loop_spec :
  (forall c, 0 <= getBytesRequiredFor c < 2 ^ 31) ->
  forall src dest maxBytes numBytesDone,
    validText src -> 0 <= maxBytes -> 0 <= numBytesDone ->
    numBytesDone + maxBytes < 2 ^ 31 ->
    exists k,
      (k <= List.length (withTerminator src))%nat
      /\ copyAndAdvanceUpToBytes_loop getBytesRequiredFor dest src maxBytes
           numBytesDone
         = (dest ++ firstn k (withTerminator src),
            numBytesDone + bytesOf getBytesRequiredFor (firstn k (withTerminator src)))
      /\ bytesOf getBytesRequiredFor (firstn k (withTerminator src)) <= maxBytes
      /\ ((k < List.length (withTerminator src))%nat ->
          bytesOf getBytesRequiredFor (firstn k (withTerminator src))
          + getBytesRequiredFor (nth k (withTerminator src) 0) > maxBytes).
Proof.
  intros HB. unfold withTerminator.
  induction src as [|c src IH]; intros dest mb n Hsrc Hmb Hn Hsum.
  - pose proof (HB 0) as Hb.
    cbn [copyAndAdvanceUpToBytes_loop getAndAdvance deref hd advance tl app].
    rewrite (wrap32_small (mb - getBytesRequiredFor 0)) by lia.
    destruct (Z.ltb_spec (mb - getBytesRequiredFor 0) 0).
    + exists O. cbn. rewrite app_nil_r.
      repeat split; try lia. f_equal. lia.
    + rewrite wrap32_small by lia.
      exists 1%nat. cbn. repeat split; try lia. f_equal. lia.
  - inversion Hsrc as [|? ? Hc Hsrc']; subst.
    pose proof (HB c) as Hb. unfold validCodePoint in Hc.
    cbn [copyAndAdvanceUpToBytes_loop getAndAdvance deref hd advance tl].
    rewrite (wrap32_small (mb - getBytesRequiredFor c)) by lia.
    destruct (Z.ltb_spec (mb - getBytesRequiredFor c) 0).
    + exists O. cbn. rewrite app_nil_r.
      repeat split; try lia. f_equal. lia.
    + rewrite wrap32_small by lia.
      destruct (Z.eqb_spec c 0); [lia|].
      destruct (IH (dest ++ [c]) (mb - getBytesRequiredFor c)
                   (n + getBytesRequiredFor c) Hsrc'
                   ltac:(lia) ltac:(lia) ltac:(lia))
        as (k & Hk & Heq & Hfit & Hnext).
      exists (S k). cbn [app List.length firstn nth bytesOf fold_right].
      fold (bytesOf getBytesRequiredFor (firstn k (src ++ [0]))).
      split; [lia|].
      split.
      { rewrite Heq, <- app_assoc. cbn [app]. f_equal. lia. }
      split; [lia|].
      intros Hlt. assert (Hlt' : (k < List.length (src ++ [0%Z]))%nat) by lia.
      specialize (Hnext Hlt'). lia.
Qed.

Lemma bytesOf_nonneg l :
  (forall c, 0 <= getBytesRequiredFor c) ->
  0 <= bytesOf getBytesRequiredFor l.
Proof.
  intros HB. induction l as [|d l IH]; cbn [bytesOf fold_right]; [lia|].
  fold (bytesOf getBytesRequiredFor l). specialize (HB d). lia.
Qed.

Lemma bytesOf_prefix_next l : forall k,
  (forall c, 0 <= getBytesRequiredFor c) ->
  (k < List.length l)%nat ->
  bytesOf getBytesRequiredFor (firstn k l) + getBytesRequiredFor (nth k l 0)
  <= bytesOf getBytesRequiredFor l.
Proof.
  induction l as [|c l IH]; intros k HB Hk; [cbn in Hk; lia|].
  destruct k as [|k]; cbn [firstn nth bytesOf fold_right].
  - fold (bytesOf getBytesRequiredFor l).
    pose proof (bytesOf_nonneg l HB). lia.
  - fold (bytesOf getBytesRequiredFor (firstn k l)).
    fold (bytesOf getBytesRequiredFor l).
    cbn [List.length] in Hk. specialize (IH k HB ltac:(lia)). lia.
Qed.

Lemma firstn_withTerminator_zero src k :
  validText src -> (k <= List.length (withTerminator src))%nat ->
  In 0 (firstn k (withTerminator src)) ->
  k = List.length (withTerminator src).
Proof.
  unfold withTerminator. intros Hv Hk Hin. rewrite length_app in *.
  cbn [List.length] in *.
  destruct (Nat.eq_dec k (List.length src + 1)) as [E|E]; [exact E|].
  exfalso. rewrite firstn_app in Hin.
  replace (k - List.length src)%nat with O in Hin by lia.
  cbn [firstn] in Hin. rewrite app_nil_r in Hin.
  assert (Hin' : In 0 src)
    by (rewrite <- (firstn_skipn k src); apply in_or_app; left; exact Hin).
  clear Hin. rename Hin' into Hin.
  unfold validText in Hv. rewrite Forall_forall in Hv.
  specialize (Hv 0 Hin). unfold validCodePoint in Hv. lia.
Qed.

(** C9 (amended). [copyAndAdvanceUpToBytes] writes the longest run of code
    points of the source, terminator included, whose encoded size stays
    within the budget, and returns the number of bytes written: the first
    code point that would exceed the budget is not written, nor is anything
    after it.  The terminator is therefore written exactly when the whole
    source and the terminator fit the budget. *)
Theorem copyAndAdvanceUpToBytes_spec (src : CharPointer) (maxBytes : Z) :
  (forall c, 0 <= getBytesRequiredFor c < 2 ^ 31) ->
  validText src ->
  0 <= maxBytes < 2 ^ 31 ->
  (exists k,
      let all := withTerminator src in
      let written := firstn k all in
      (k <= List.length all)%nat
      /\ copyAndAdvanceUpToBytes getBytesRequiredFor src maxBytes
         = (written, bytesOf getBytesRequiredFor written)
      /\ bytesOf getBytesRequiredFor written <= maxBytes
      /\ ((k < List.length all)%nat ->
          bytesOf getBytesRequiredFor written
          + getBytesRequiredFor (nth k all 0) > maxBytes))
  /\ (In 0 (fst (copyAndAdvanceUpToBytes getBytesRequiredFor src maxBytes))
      <-> bytesOf getBytesRequiredFor (withTerminator src) <= maxBytes).
Proof.
  intros HB Hsrc Hmb.
  destruct (copyAndAdvanceUpToBytes_loop_spec HB src [] maxBytes 0 Hsrc
              ltac:(lia) ltac:(lia) ltac:(lia))
    as (k & Hk & Heq & Hfit & Hnext).
  assert (Hres : copyAndAdvanceUpToBytes getBytesRequiredFor src maxBytes
                 = (firstn k (withTerminator src),
                    bytesOf getBytesRequiredFor (firstn k (withTerminator src)))).
  { unfold copyAndAdvanceUpToBytes. rewrite Heq. cbn [app].
    rewrite Z.add_0_l. reflexivity. }
  split.
  - exists k. cbn zeta. auto.
  - rewrite Hres. cbn [fst]. split.
    + intros Hin.
      rewrite (firstn_withTerminator_zero src k Hsrc Hk Hin), firstn_all in Hfit.
      exact Hfit.
    + intros Hall.
      assert (Hk' : k = List.length (withTerminator src)).
      { destruct (Nat.eq_dec k (List.length (withTerminator src))) as [E|E];
          [exact E|].
        assert (Hlt : (k < List.length (withTerminator src))%nat) by lia.
        specialize (Hnext Hlt).
        pose proof (bytesOf_prefix_next (withTerminator src) k
                      (fun c => proj1 (HB c)) Hlt). lia. }
      rewrite Hk', firstn_all. unfold withTerminator.
      apply in_or_app. right. left. reflexivity.
Qed.

(** ** getDoubleValue: the digit loop terminates *)

Lemma skipDigitsAdjusting_length dp : forall s a,
  (List.length (fst (skipDigitsAdjusting isDigit dp s a)) <= List.length s)%nat.
Proof.
  induction s as [|c s IH]; intros a; [reflexivity|].
  cbn [skipDigitsAdjusting ptrIsDigit]. destruct (isDigit c).
  - specialize (IH (if dp =? 0 then incr a else a)). cbn [List.length]. lia.
  - reflexivity.
Qed.

Lemma skipDigits_length : forall s,
  (List.length (skipDigits isDigit s) <= List.length s)%nat.
Proof.
  induction s as [|c s IH]; [reflexivity|].
  cbn [skipDigits ptrIsDigit]. destruct (isDigit c); cbn [List.length]; lia.
Qed.

Lemma scanStep_progress st st' :
  scanStep isDigit mulexp10 st = (true, st') ->
  (List.length (scan_s st') < List.length (scan_s st))%nat.
Proof.
  unfold scanStep.
  destruct (scan_s st) as [|c s1].
  - cbn [ptrIsDigit deref hd]. rewrite andb_false_r. discriminate.
  - cbn [ptrIsDigit getAndAdvance deref hd advance tl].
    destruct (isDigit c).
    + destruct (_ && _).
      * intros H. inversion H. cbn. lia.
      * destruct (_ >? _).
        -- pose proof (skipDigitsAdjusting_length (decPointIndex st) s1) as Hl.
           match goal with
           | |- context [skipDigitsAdjusting isDigit ?d s1 ?a] =>
               specialize (Hl a);
               destruct (skipDigitsAdjusting isDigit d s1 a) as [s2 adj0]
           end.
           intros H. inversion H. cbn in *. lia.
        -- intros H. inversion H. cbn. lia.
    + destruct (_ && _); [|discriminate].
      destruct (_ >? _); [discriminate|].
      intros H. inversion H. cbn. lia.
Qed.

Lemma scanLoop_total : forall fuel st,
  (List.length (scan_s st) < fuel)%nat ->
  exists st', scanLoop isDigit mulexp10 fuel st = Some st'.
Proof.
  induction fuel as [|fuel IH]; intros st Hlen; [lia|].
  cbn [scanLoop].
  destruct (scanStep isDigit mulexp10 st) as [again st'] eqn:Hstep.
  destruct again.
  - apply IH. apply scanStep_progress in Hstep. lia.
  - eauto.
Qed.

(** [getDoubleValue] returns a value on every text. *)
Lemma getDoubleValue_total text :
  exists v, getDoubleValue isWhitespace isDigit mulexp10 text = Some v.
Proof.
  unfold getDoubleValue, getDoubleValue_scan.
  destruct (readSign _) as [isNegative s].
  destruct (special s) as [v|]; [eexists; reflexivity|].
  destruct (scanLoop_total (S (List.length s)) (initialScan s)) as [st Hst];
    [cbn; lia|].
  rewrite Hst. eexists. reflexivity.
Qed.

(** ** getDoubleValue: the special values *)

Lemma asciiFold_inv c l :
  97 <= l <= 122 -> asciiFold c = l -> c = l \/ c = l - 32.
Proof.
  unfold asciiFold. intros Hl. zcases; cbn [andb]; lia.
Qed.

Lemma special_nan c1 c2 c3 rest :
  map asciiFold [c1; c2; c3] = chars "nan" ->
  special (c1 :: c2 :: c3 :: rest) = Some quiet_NaN.
Proof.
  intros H. change (chars "nan") with [110; 97; 110] in H.
  injection H as H1 H2 H3.
  apply asciiFold_inv in H1, H2, H3; try lia.
  destruct H1, H2, H3; subst; reflexivity.
Qed.

Lemma special_inf c1 c2 c3 rest :
  map asciiFold [c1; c2; c3] = chars "inf" ->
  special (c1 :: c2 :: c3 :: rest) = Some infinity.
Proof.
  intros H. change (chars "inf") with [105; 110; 102] in H.
  injection H as H1 H2 H3.
  apply asciiFold_inv in H1, H2, H3; try lia.
  destruct H1, H2, H3; subst; reflexivity.
Qed.

Lemma getDoubleValue_scan_special text sign s v :
  findEndOfWhitespace isWhitespace text = sign ++ s ->
  sign = [] \/ sign = [45] \/ sign = [43] ->
  deref s <> 45 -> deref s <> 43 ->
  special s = Some v ->
  getDoubleValue_scan isWhitespace isDigit mulexp10 text = Some (v, s).
Proof.
  intros Hfew Hsign H45 H43 Hsp.
  unfold getDoubleValue_scan. rewrite Hfew.
  destruct Hsign as [-> | [-> | ->]]; cbn [app].
  - assert (Hr : readSign s = (false, s)).
    { unfold readSign.
      destruct (Z.eqb_spec (deref s) 45); [contradiction|].
      destruct (Z.eqb_spec (deref s) 43); [contradiction|]. reflexivity. }
    rewrite Hr. cbv beta iota. rewrite Hsp. reflexivity.
  - change (readSign (45 :: s)) with (true, s). cbv beta iota.
    rewrite Hsp. reflexivity.
  - change (readSign (43 :: s)) with (false, s). cbv beta iota.
    rewrite Hsp. reflexivity.
Qed.

(** C4. After the whitespace and an optional sign, three code points that
    fold to [nan] make [getDoubleValue] return the quiet NaN and three that
    fold to [inf] make it return infinity, whatever follows them; the local
    pointer is still at the first of the three, no digit having been
    scanned. *)
Theorem getDoubleValue_special (text sign rest : CharPointer)
    (c1 c2 c3 : juce_wchar) :
  findEndOfWhitespace isWhitespace text = sign ++ c1 :: c2 :: c3 :: rest ->
  sign = [] \/ sign = [45] \/ sign = [43] ->
  (map asciiFold [c1; c2; c3] = chars "nan" ->
   getDoubleValue_scan isWhitespace isDigit mulexp10 text
   = Some (quiet_NaN, c1 :: c2 :: c3 :: rest)
   /\ getDoubleValue isWhitespace isDigit mulexp10 text = Some quiet_NaN
   /\ deq quiet_NaN quiet_NaN = false)
  /\ (map asciiFold [c1; c2; c3] = chars "inf" ->
      getDoubleValue_scan isWhitespace isDigit mulexp10 text
      = Some (infinity, c1 :: c2 :: c3 :: rest)
      /\ getDoubleValue isWhitespace isDigit mulexp10 text = Some infinity).
Proof.
  intros Hfew Hsign. split; intros Hfold.
  - assert (Hc1 : c1 = 110 \/ c1 = 78).
    { change (chars "nan") with [110; 97; 110] in Hfold.
      injection Hfold as H1 _ _. apply asciiFold_inv in H1; lia. }
    assert (Hscan : getDoubleValue_scan isWhitespace isDigit mulexp10 text
                    = Some (quiet_NaN, c1 :: c2 :: c3 :: rest)).
    { apply (getDoubleValue_scan_special text sign); auto.
      - cbn [deref hd]. lia.
      - cbn [deref hd]. lia.
      - apply special_nan, Hfold. }
    unfold getDoubleValue. rewrite Hscan. auto.
  - assert (Hc1 : c1 = 105 \/ c1 = 73).
    { change (chars "inf") with [105; 110; 102] in Hfold.
      injection Hfold as H1 _ _. apply asciiFold_inv in H1; lia. }
    assert (Hscan : getDoubleValue_scan isWhitespace isDigit mulexp10 text
                    = Some (infinity, c1 :: c2 :: c3 :: rest)).
    { apply (getDoubleValue_scan_special text sign); auto.
      - cbn [deref hd]. lia.
      - cbn [deref hd]. lia.
      - apply special_inf, Hfold. }
    unfold getDoubleValue. rewrite Hscan. auto.
Qed.

(** C1. On a text that reads [-inf] after the whitespace, [getDoubleValue]
    returns positive infinity, not negative infinity: the sign that was read
    is not applied to the value returned early. *)
Theorem getDoubleValue_minus_inf (text rest : CharPointer) :
  findEndOfWhitespace isWhitespace text = chars "-inf" ++ rest ->
  getDoubleValue isWhitespace isDigit mulexp10 text = Some infinity
  /\ getDoubleValue isWhitespace isDigit mulexp10 text <> Some neg_infinity.
Proof.
  intros Hfew.
  assert (H : getDoubleValue isWhitespace isDigit mulexp10 text = Some infinity).
  { unfold getDoubleValue.
    rewrite (getDoubleValue_scan_special text [45] (chars "inf" ++ rest) infinity);
      auto; cbn; lia. }
  rewrite H. split; [reflexivity | discriminate].
Qed.

(** ** getDoubleValue: texts without a digit *)

Section ZeroTimesPowerOfTen.

(** What the statements below need of [mulexp10]: zero scaled by the two
    exponents that occur when no digit was read is zero. *)
Hypothesis mulexp10_zero_m1 : mulexp10 pos_zero (-1) = pos_zero.
Hypothesis mulexp10_zero_0 : mulexp10 pos_zero 0 = pos_zero.

Lemma finishScan_untouched neg s dp :
  dp = 0 \/ dp = 1 ->
  finishScan isDigit mulexp10 neg
    (mkScan s (pos_zero, pos_zero) (pos_zero, pos_zero) (0, 0) (-1, -1)
            dp 0 0 0 false)
  = (S754_zero neg, s).
Proof.
  intros [-> | ->]; unfold finishScan;
    cbn [decPointIndex result accumulator exponentAccumulator
         exponentAdjustment scan_s digitsFound fst snd];
    rewrite andb_false_r; cbn [Z.eqb negb Z.add Z.sub Z.opp];
    change (wrap32 0) with 0;
    rewrite !mulexp10_zero_m1; change (dadd pos_zero pos_zero) with pos_zero;
    rewrite !mulexp10_zero_0; change (dadd pos_zero pos_zero) with pos_zero;
    destruct neg; reflexivity.
Qed.

Lemma scanLoop_no_digit s :
  ptrIsDigit isDigit s = false ->
  (deref s = 46 -> ptrIsDigit isDigit (advance s) = false) ->
  scanLoop isDigit mulexp10 (S (List.length s)) (initialScan s)
  = Some (mkScan (if deref s =? 46 then advance s else s)
                 (pos_zero, pos_zero) (pos_zero, pos_zero) (0, 0) (-1, -1)
                 (if deref s =? 46 then 1 else 0) 0 0 0 false).
Proof.
  intros Hd Hdot.
  destruct (Z.eqb_spec (deref s) 46) as [H46|H46].
  - destruct s as [|c s1]; [discriminate|].
    cbn [deref hd] in H46. subst c.
    specialize (Hdot eq_refl). cbn [advance tl] in Hdot |- *.
    cbn [List.length scanLoop]. unfold scanStep at 1.
    cbn [initialScan scan_s decPointIndex numSignificantDigits deref hd
         advance tl result accumulator exponentAdjustment exponentAccumulator
         digit lastDigit digitsFound].
    rewrite Hd. cbn [Z.eqb Pos.eqb andb].
    change (0 >? maxSignificantDigits) with false. cbv beta iota.
    unfold scanStep.
    cbn [scan_s decPointIndex]. rewrite Hdot. reflexivity.
  - cbn [scanLoop]. unfold scanStep.
    cbn [initialScan scan_s decPointIndex]. rewrite Hd.
    destruct (Z.eqb_spec (deref s) 46); [contradiction|].
    reflexivity.
Qed.

Lemma getDoubleValue_scan_no_digit text neg s :
  readSign (findEndOfWhitespace isWhitespace text) = (neg, s) ->
  special s = None ->
  ptrIsDigit isDigit s = false ->
  (deref s = 46 -> ptrIsDigit isDigit (advance s) = false) ->
  getDoubleValue_scan isWhitespace isDigit mulexp10 text
  = Some (S754_zero neg, if deref s =? 46 then advance s else s).
Proof.
  intros Hsign Hsp Hd Hdot.
  unfold getDoubleValue_scan. rewrite Hsign, Hsp.
  rewrite (scanLoop_no_digit s Hd Hdot).
  rewrite finishScan_untouched; [reflexivity|].
  destruct (deref s =? 46); auto.
Qed.

End ZeroTimesPowerOfTen.

(** ** getDoubleValue: single passes through the digit loop *)

(** The loop is left when the pointer is at neither a digit nor the first
    decimal point. *)
Lemma scanStep_break st :
  ptrIsDigit isDigit (scan_s st) = false ->
  (decPointIndex st =? 0) && (deref (scan_s st) =? 46) = false ->
  scanStep isDigit mulexp10 st = (false, st).
Proof.
  intros Hd Hdot. unfold scanStep. rewrite Hd, Hdot. reflexivity.
Qed.

(** A zero before the first significant digit. *)
Lemma scanStep_leading_zero st c s' :
  scan_s st = c :: s' ->
  isDigit c = true ->
  numSignificantDigits st = 0 ->
  wrap32 (c - 48) = 0 ->
  scanStep isDigit mulexp10 st
  = (true,
     mkScan s' (result st) (accumulator st)
            (if negb (decPointIndex st =? 0)
             then (fst (exponentAdjustment st),
                   incr (snd (exponentAdjustment st)))
             else exponentAdjustment st)
            (exponentAccumulator st) (decPointIndex st) 0 (digit st) 0 true).
Proof.
  intros Hs Hd Hn Hz. unfold scanStep. rewrite Hs.
  cbn [ptrIsDigit getAndAdvance deref hd advance tl].
  rewrite Hd, Hn, Hz. reflexivity.
Qed.

(** A text that reads [-0] after the whitespace. *)
Lemma getDoubleValue_minus_zero text :
  mulexp10 pos_zero (-1) = pos_zero ->
  mulexp10 pos_zero 0 = pos_zero ->
  findEndOfWhitespace isWhitespace text = chars "-0" ->
  getDoubleValue isWhitespace isDigit mulexp10 text = Some neg_zero.
Proof.
  intros Hm1 H0 Hfew.
  destruct (isDigit 48) eqn:Hd.
  - unfold getDoubleValue, getDoubleValue_scan. rewrite Hfew.
    change (readSign (chars "-0")) with (true, [48]).
    cbv beta iota. change (special [48]) with (@None double).
    cbn [List.length scanLoop].
    rewrite (scanStep_leading_zero (initialScan [48]) 48 [])
      by (reflexivity || exact Hd).
    rewrite scanStep_break by reflexivity.
    cbn [option_map initialScan result accumulator exponentAdjustment
         exponentAccumulator decPointIndex digit Z.eqb negb].
    unfold finishScan.
    cbn [scan_s decPointIndex result accumulator exponentAdjustment
         exponentAccumulator digitsFound fst snd deref hd Z.eqb negb orb andb].
    change (wrap32 (0 + 0)) with 0.
    rewrite Hm1. change (dadd pos_zero pos_zero) with pos_zero.
    rewrite H0. reflexivity.
  - unfold getDoubleValue.
    rewrite (getDoubleValue_scan_no_digit Hm1 H0 text true [48]).
    + reflexivity.
    + rewrite Hfew. reflexivity.
    + reflexivity.
    + exact Hd.
    + discriminate.
Qed.

(** C5. When no digit is found and neither special value matches,
    [getDoubleValue] returns zero with the sign that was read: the empty text
    and [abc] give 0.0, a lone [-] and [-0] give negative zero, a lone [+]
    gives positive zero. *)
Theorem getDoubleValue_no_digits (text : CharPointer) :
  mulexp10 pos_zero (-1) = pos_zero ->
  mulexp10 pos_zero 0 = pos_zero ->
  let s0 := findEndOfWhitespace isWhitespace text in
  (forall neg s,
     readSign s0 = (neg, s) ->
     special s = None ->
     ptrIsDigit isDigit s = false ->
     (deref s = 46 -> ptrIsDigit isDigit (advance s) = false) ->
     getDoubleValue isWhitespace isDigit mulexp10 text
     = Some (if neg then neg_zero else pos_zero))
  /\ (s0 = [] ->
      getDoubleValue isWhitespace isDigit mulexp10 text = Some pos_zero)
  /\ (s0 = chars "abc" -> isDigit 97 = false ->
      getDoubleValue isWhitespace isDigit mulexp10 text = Some pos_zero)
  /\ (s0 = chars "-" ->
      getDoubleValue isWhitespace isDigit mulexp10 text = Some neg_zero)
  /\ (s0 = chars "-0" ->
      getDoubleValue isWhitespace isDigit mulexp10 text = Some neg_zero)
  /\ (s0 = chars "+" ->
      getDoubleValue isWhitespace isDigit mulexp10 text = Some pos_zero).
Proof.
  intros Hm1 H0 s0.
  assert (Hgen : forall neg s,
             readSign s0 = (neg, s) ->
             special s = None ->
             ptrIsDigit isDigit s = false ->
             (deref s = 46 -> ptrIsDigit isDigit (advance s) = false) ->
             getDoubleValue isWhitespace isDigit mulexp10 text
             = Some (if neg then neg_zero else pos_zero)).
  { intros neg s Hsign Hsp Hd Hdot. unfold getDoubleValue.
    rewrite (getDoubleValue_scan_no_digit Hm1 H0 text neg s Hsign Hsp Hd Hdot).
    destruct neg; reflexivity. }
  split; [exact Hgen|].
  split.
  { intros Hs. apply (Hgen false []); try reflexivity.
    rewrite Hs. reflexivity. }
  split.
  { intros Hs Ha. apply (Hgen false (chars "abc")); try reflexivity;
      try exact Ha; try discriminate.
    rewrite Hs. reflexivity. }
  split.
  { intros Hs. apply (Hgen true []); try reflexivity.
    rewrite Hs. reflexivity. }
  split.
  { intros Hs. apply getDoubleValue_minus_zero; assumption. }
  intros Hs. apply (Hgen false []); try reflexivity.
  rewrite Hs. reflexivity.
Qed.

(** C10. The exponent marker is read only after a digit: when no digit was
    found the part after the digit loop leaves the pointer where the loop
    left it, and a text that, after the whitespace and an optional sign,
    starts with [e] or [E] yields zero (with the sign that was read) without
    the marker being consumed; [e5] yields 0.0. *)
Theorem getDoubleValue_exponent_needs_digit (text : CharPointer) :
  mulexp10 pos_zero (-1) = pos_zero ->
  mulexp10 pos_zero 0 = pos_zero ->
  (forall neg st,
     digitsFound st = false ->
     snd (finishScan isDigit mulexp10 neg st) = scan_s st)
  /\ (forall neg c rest,
        readSign (findEndOfWhitespace isWhitespace text) = (neg, c :: rest) ->
        c = 101 \/ c = 69 ->
        isDigit c = false ->
        getDoubleValue_scan isWhitespace isDigit mulexp10 text
        = Some (S754_zero neg, c :: rest)
        /\ deq (S754_zero neg) pos_zero = true)
  /\ (findEndOfWhitespace isWhitespace text = chars "e5" ->
      isDigit 101 = false ->
      getDoubleValue isWhitespace isDigit mulexp10 text = Some pos_zero).
Proof.
  intros Hm1 H0.
  assert (Hgen : forall neg c rest,
            readSign (findEndOfWhitespace isWhitespace text) = (neg, c :: rest) ->
            c = 101 \/ c = 69 ->
            isDigit c = false ->
            getDoubleValue_scan isWhitespace isDigit mulexp10 text
            = Some (S754_zero neg, c :: rest)).
  { intros neg c rest Hsign Hc Hd.
    rewrite (getDoubleValue_scan_no_digit Hm1 H0 text neg (c :: rest) Hsign).
    - cbn [deref hd]. destruct (Z.eqb_spec c 46); [lia | reflexivity].
    - destruct Hc; subst; reflexivity.
    - exact Hd.
    - cbn [deref hd]. lia. }
  split.
  { intros neg st Hfound. unfold finishScan. rewrite Hfound, andb_false_r.
    destruct (negb _); destruct neg; reflexivity. }
  split.
  { intros neg c rest Hsign Hc Hd. split; [apply Hgen; assumption|].
    destruct neg; reflexivity. }
  intros Hs Hd. unfold getDoubleValue.
  rewrite (Hgen false 101 [53]); auto.
  rewrite Hs. reflexivity.
Qed.

Lemma decr_incr x : decr (incr x) = wrap32 x.
Proof.
  unfold decr, incr, wrap32, wrap.
  change (2 ^ (32 - 1)) with 2147483648. change (2 ^ 32) with 4294967296.
  f_equal.
  replace ((x + 1 + 2147483648) mod 4294967296 - 2147483648 - 1 + 2147483648)
    with ((x + 1 + 2147483648) mod 4294967296 - 1) by lia.
  rewrite Zminus_mod_idemp_l. f_equal. lia.
Qed.

Lemma land_1_odd x : negb (Z.land x 1 =? 0) = Z.odd x.
Proof.
  change 1 with (Z.ones 1) at 1. rewrite Z.land_ones by lia.
  change (2 ^ 1) with 2. rewrite Zmod_odd.
  destruct (Z.odd x); reflexivity.
Qed.

Lemma roundsUp_spec d last :
  roundsUp d last = (d >? 5) || ((d =? 5) && Z.odd last).
Proof.
  unfold roundsUp. rewrite land_1_odd.
  destruct (d >? 5); [reflexivity|].
  destruct ((d =? 5) && Z.odd last); reflexivity.
Qed.

Lemma iter_incr_shift n x : Nat.iter n incr (incr x) = incr (Nat.iter n incr x).
Proof.
  induction n as [|n IH]; [reflexivity|].
  rewrite !Nat.iter_succ, IH. reflexivity.
Qed.

Lemma skipDigitsAdjusting_spec dp : forall s a,
  skipDigitsAdjusting isDigit dp s a
  = (skipDigits isDigit s,
     if dp =? 0 then Nat.iter (leadingDigits isDigit s) incr a else a).
Proof.
  induction s as [|c s IH]; intros a.
  - cbn. destruct (dp =? 0); reflexivity.
  - cbn [skipDigitsAdjusting skipDigits leadingDigits ptrIsDigit].
    destruct (isDigit c).
    + rewrite IH. destruct (dp =? 0); [|reflexivity].
      rewrite Nat.iter_succ, iter_incr_shift. reflexivity.
    + cbn. destruct (dp =? 0); reflexivity.
Qed.

(** A digit within the budget is folded into the accumulator of its lane. *)
Lemma scanStep_counted st c s' :
  scan_s st = c :: s' ->
  isDigit c = true ->
  0 <= numSignificantDigits st < maxSignificantDigits ->
  (numSignificantDigits st = 0 -> wrap32 (c - 48) <> 0) ->
  let dp := decPointIndex st in
  let st' := snd (scanStep isDigit mulexp10 st) in
  fst (scanStep isDigit mulexp10 st) = true
  /\ scan_s st' = s'
  /\ numSignificantDigits st' = numSignificantDigits st + 1
  /\ sel dp (accumulator st')
     = dadd (dmul (if dgt (sel dp (accumulator st)) maxAccumulatorValue
                   then pos_zero else sel dp (accumulator st))
                  (of_int 10))
            (of_int (wrap32 (c - 48))).
Proof.
  intros Hs Hd Hn Hnz dp st'. subst st'. unfold scanStep. rewrite Hs.
  cbn [ptrIsDigit getAndAdvance deref hd advance tl]. rewrite Hd.
  unfold maxSignificantDigits in *.
  assert (Hincr : incr (numSignificantDigits st) = numSignificantDigits st + 1)
    by (unfold incr; apply wrap32_small; lia).
  rewrite Hincr.
  destruct (Z.eqb_spec (numSignificantDigits st) 0) as [H0|H0];
    destruct (Z.eqb_spec (wrap32 (c - 48)) 0) as [Hz|Hz];
    try (exfalso; apply (Hnz H0); exact Hz); cbn [andb];
    (destruct (Z.gtb_spec (numSignificantDigits st + 1) (15 + 2)); [lia|]);
    fold dp; cbn [fst snd scan_s numSignificantDigits accumulator];
    (repeat split; try reflexivity);
    destruct (dgt (sel dp (accumulator st)) maxAccumulatorValue);
    unfold sel, upd; destruct (dp =? 0); reflexivity.
Qed.

(** The first digit beyond the budget, read before the decimal point. *)
Lemma scanStep_beyond_cap_integer st c s' :
  scan_s st = c :: s' ->
  isDigit c = true ->
  numSignificantDigits st = maxSignificantDigits ->
  decPointIndex st = 0 ->
  scanStep isDigit mulexp10 st
  = (true,
     mkScan (skipDigits isDigit s') (result st)
            (if roundsUp (wrap32 (c - 48)) (digit st)
             then (dadd (fst (accumulator st)) (of_int 1), snd (accumulator st))
             else accumulator st)
            (Nat.iter (S (leadingDigits isDigit s')) incr
                      (fst (exponentAdjustment st)),
             snd (exponentAdjustment st))
            (exponentAccumulator st) 0 (wrap32 (c - 48)) (digit st)
            (incr (numSignificantDigits st)) true).
Proof.
  intros Hs Hd Hn Hdp. unfold scanStep. rewrite Hs.
  cbn [ptrIsDigit getAndAdvance deref hd advance tl].
  rewrite Hd, Hn, Hdp.
  change (maxSignificantDigits =? 0) with false. cbn [andb].
  change (incr maxSignificantDigits >? maxSignificantDigits) with true.
  cbn [Z.eqb negb Z.gtb Z.compare fst snd].
  rewrite skipDigitsAdjusting_spec. cbn [Z.eqb].
  rewrite Nat.iter_succ, iter_incr_shift. reflexivity.
Qed.

(** The first digit beyond the budget, read after the decimal point. *)
Lemma scanStep_beyond_cap_fraction st c s' :
  scan_s st = c :: s' ->
  isDigit c = true ->
  numSignificantDigits st = maxSignificantDigits ->
  decPointIndex st = 1 ->
  scanStep isDigit mulexp10 st
  = (true,
     mkScan (skipDigits isDigit s') (result st)
            (if roundsUp (wrap32 (c - 48)) (digit st)
             then (fst (accumulator st), dadd (snd (accumulator st)) (of_int 1))
             else accumulator st)
            (fst (exponentAdjustment st),
             wrap32 (snd (exponentAdjustment st)))
            (exponentAccumulator st) 1 (wrap32 (c - 48)) (digit st)
            (incr (numSignificantDigits st)) true).
Proof.
  intros Hs Hd Hn Hdp. unfold scanStep. rewrite Hs.
  cbn [ptrIsDigit getAndAdvance deref hd advance tl].
  rewrite Hd, Hn, Hdp.
  change (maxSignificantDigits =? 0) with false. cbn [andb].
  change (incr maxSignificantDigits >? maxSignificantDigits) with true.
  cbn [Z.eqb negb Z.gtb Z.compare fst snd].
  rewrite skipDigitsAdjusting_spec. cbn [Z.eqb].
  rewrite decr_incr. reflexivity.
Qed.

(** Passes over digits within the budget: every digit after the first
    non-zero one raises [numSignificantDigits] by one, so the states with
    [numSignificantDigits st = 17] are those in which 17 significant digits
    have been accumulated. *)
Lemma scanSteps_counted rest : forall ds st,
  scan_s st = ds ++ rest ->
  Forall (fun c => isDigit c = true) ds ->
  (numSignificantDigits st = 0 -> wrap32 (hd 49 ds - 48) <> 0) ->
  0 <= numSignificantDigits st ->
  numSignificantDigits st + Z.of_nat (List.length ds) <= maxSignificantDigits ->
  scan_s (scanSteps isDigit mulexp10 (List.length ds) st) = rest
  /\ numSignificantDigits (scanSteps isDigit mulexp10 (List.length ds) st)
     = numSignificantDigits st + Z.of_nat (List.length ds).
Proof.
  induction ds as [|c ds IH]; intros st Hs Hds Hnz Hn Hcap.
  - cbn. split; [exact Hs | lia].
  - inversion Hds as [|? ? Hc Hds']; subst.
    cbn [List.length] in Hcap |- *. unfold scanSteps.
    rewrite Nat.iter_succ_r. fold (scanSteps isDigit mulexp10).
    destruct (scanStep_counted st c (ds ++ rest) Hs Hc ltac:(lia) Hnz)
      as (_ & H1 & H2 & _).
    destruct (IH (snd (scanStep isDigit mulexp10 st)) H1 Hds'
                 ltac:(lia) ltac:(lia) ltac:(lia)) as [IH1 IH2].
    fold (scanSteps isDigit mulexp10 (List.length ds)
            (snd (scanStep isDigit mulexp10 st))).
    split; [exact IH1 | lia].
Qed.

(** One pass through the digit loop at a digit [c]:
    a zero read while no significant digit has been seen leaves the count of
    significant digits and the accumulators as they were; a digit within the
    budget of 17 is counted and folded in; the digit that follows 17
    significant digits is not folded in: before the decimal point it and
    every digit after it add one to [exponentAdjustment[0]], after the
    decimal point it and the digits after it are dropped with the exponent
    adjustment unchanged, and in both cases the accumulator of the lane is
    increased by one exactly when that digit is greater than 5, or is 5 and
    the digit before it is odd. *)
Theorem digit_cap_policy (st : ScanState) (c : juce_wchar) (s' : CharPointer) :
  scan_s st = c :: s' ->
  isDigit c = true ->
  let d := wrap32 (c - 48) in
  let st' := snd (scanStep isDigit mulexp10 st) in
  let rounded (x : double) :=
    if (d >? 5) || ((d =? 5) && Z.odd (digit st)) then dadd x (of_int 1)
    else x in
  (numSignificantDigits st = 0 -> d = 0 ->
   numSignificantDigits st' = 0
   /\ accumulator st' = accumulator st
   /\ exponentAccumulator st' = exponentAccumulator st
   /\ result st' = result st
   /\ scan_s st' = s')
  /\ (0 <= numSignificantDigits st < maxSignificantDigits ->
      (numSignificantDigits st = 0 -> d <> 0) ->
      numSignificantDigits st' = numSignificantDigits st + 1
      /\ sel (decPointIndex st) (accumulator st')
         = dadd (dmul (if dgt (sel (decPointIndex st) (accumulator st))
                              maxAccumulatorValue
                       then pos_zero
                       else sel (decPointIndex st) (accumulator st))
                      (of_int 10))
                (of_int d)
      /\ scan_s st' = s')
  /\ (numSignificantDigits st = maxSignificantDigits ->
      decPointIndex st = 0 ->
      exponentAdjustment st'
      = (Nat.iter (S (leadingDigits isDigit s')) incr
                  (fst (exponentAdjustment st)),
         snd (exponentAdjustment st))
      /\ accumulator st'
         = (rounded (fst (accumulator st)), snd (accumulator st))
      /\ exponentAccumulator st' = exponentAccumulator st
      /\ result st' = result st
      /\ scan_s st' = skipDigits isDigit s')
  /\ (numSignificantDigits st = maxSignificantDigits ->
      decPointIndex st = 1 ->
      exponentAdjustment st'
      = (fst (exponentAdjustment st), wrap32 (snd (exponentAdjustment st)))
      /\ accumulator st'
         = (fst (accumulator st), rounded (snd (accumulator st)))
      /\ exponentAccumulator st' = exponentAccumulator st
      /\ result st' = result st
      /\ scan_s st' = skipDigits isDigit s').
Proof.
  intros Hs Hd d st' rounded.
  split.
  { intros Hn Hz. subst st'.
    rewrite (scanStep_leading_zero st c s' Hs Hd Hn Hz).
    cbn [snd numSignificantDigits accumulator exponentAccumulator result scan_s].
    auto. }
  split.
  { intros Hn Hnz.
    destruct (scanStep_counted st c s' Hs Hd Hn Hnz) as (_ & H1 & H2 & H3).
    auto. }
  split.
  { intros Hn Hdp. subst st' rounded.
    rewrite (scanStep_beyond_cap_integer st c s' Hs Hd Hn Hdp).
    cbn [snd exponentAdjustment accumulator exponentAccumulator result scan_s].
    rewrite roundsUp_spec. fold d.
    destruct ((d >? 5) || ((d =? 5) && Z.odd (digit st)));
      destruct (accumulator st); auto. }
  intros Hn Hdp. subst st' rounded.
  rewrite (scanStep_beyond_cap_fraction st c s' Hs Hd Hn Hdp).
  cbn [snd exponentAdjustment accumulator exponentAccumulator result scan_s].
  rewrite roundsUp_spec. fold d.
  destruct ((d >? 5) || ((d =? 5) && Z.odd (digit st)));
    destruct (accumulator st); auto.
Qed.

(** ** The caller's pointer *)

Lemma getIntValue_loop_pointer T : forall s v,
  snd (getIntValue_loop T v s) = advance (skipAsciiDigits s).
Proof.
  induction s as [|c s IH]; intros v; [reflexivity|].
  cbn [getIntValue_loop getAndAdvance deref hd advance tl skipAsciiDigits].
  destruct ((48 <=? c) && (c <=? 57)); [apply IH | reflexivity].
Qed.

(** C2 (amended). Both parsers leave the caller's pointer where it was: the
    text is received by reference to const and all advancing is done on a
    local copy, which in [getIntValue] ends one code point past the first
    code point that is not part of the numeric token. *)
Theorem parsers_keep_caller_pointer (T : IntType) (text : CharPointer) :
  call_getIntValue isWhitespace T text = (getIntValue isWhitespace T text, text)
  /\ call_getDoubleValue isWhitespace isDigit mulexp10 text
     = (getDoubleValue isWhitespace isDigit mulexp10 text, text)
  /\ snd (getIntValue_scan isWhitespace T text)
     = advance (spec_afterIntegerToken isWhitespace text).
Proof.
  split; [reflexivity|]. split; [reflexivity|].
  unfold getIntValue_scan, spec_afterIntegerToken.
  pose proof (getIntValue_loop_pointer T
                (if deref (findEndOfWhitespace isWhitespace text) =? 45
                 then advance (findEndOfWhitespace isWhitespace text)
                 else findEndOfWhitespace isWhitespace text) 0) as H.
  destruct (getIntValue_loop T 0 _) as [v s]. exact H.
Qed.

End Properties.

(** * Instances *)

(** C2, as stated, fails on [12ab]: both parsers return 12 and the caller's
    pointer is still at [12ab], not at [ab], the first code point after the
    numeric token. *)
Lemma caller_pointer_not_advanced :
  call_getIntValue asciiIsWhitespace int32 (chars "12ab") = (12, chars "12ab")
  /\ call_getDoubleValue asciiIsWhitespace asciiIsDigit mulexp10_pow
       (chars "12ab")
     = (Some (of_int 12), chars "12ab")
  /\ spec_afterIntegerToken asciiIsWhitespace (chars "12ab") = chars "ab"
  /\ snd (call_getIntValue asciiIsWhitespace int32 (chars "12ab"))
     <> spec_afterIntegerToken asciiIsWhitespace (chars "12ab")
  /\ snd (call_getDoubleValue asciiIsWhitespace asciiIsDigit mulexp10_pow
            (chars "12ab"))
     <> chars "ab".
Proof.
  repeat split; try (vm_compute; reflexivity); vm_compute; discriminate.
Qed.

(** C9, as stated, fails on the source [a], [e-acute] with a budget of 2
    bytes and UTF-8 sizes: [a] is written, the two-byte code point is not,
    and the loop is left there; one byte remains, the terminator needs one,
    and it is not written. *)
Lemma terminator_not_written_though_it_fits :
  validText [97; 233]
  /\ copyAndAdvanceUpToBytes utf8BytesRequiredFor [97; 233] 2 = ([97], 1)
  /\ utf8BytesRequiredFor 0
     <= 2 - snd (copyAndAdvanceUpToBytes utf8BytesRequiredFor [97; 233] 2)
  /\ ~ In 0 (fst (copyAndAdvanceUpToBytes utf8BytesRequiredFor [97; 233] 2)).
Proof.
  split; [repeat constructor; reflexivity|].
  split; [vm_compute; reflexivity|].
  split; [vm_compute; discriminate|].
  vm_compute. intros [H|[]]. discriminate H.
Qed.

Lemma getDoubleValue_minus_inf_witness :
  getDoubleValue asciiIsWhitespace asciiIsDigit mulexp10_pow (chars "  -inf")
  = Some infinity
  /\ getDoubleValue asciiIsWhitespace asciiIsDigit mulexp10_pow (chars "  -inf")
     <> Some neg_infinity.
Proof.
  apply (getDoubleValue_minus_inf asciiIsWhitespace asciiIsDigit mulexp10_pow
           (chars "  -inf") []).
  reflexivity.
Defined.

Lemma getDoubleValue_special_witness :
  getDoubleValue asciiIsWhitespace asciiIsDigit mulexp10_pow (chars " -NaNxyz")
  = Some quiet_NaN.
Proof.
  apply (getDoubleValue_special asciiIsWhitespace asciiIsDigit mulexp10_pow
           (chars " -NaNxyz") [45] (chars "xyz") 78 97 78).
  - reflexivity.
  - right. left. reflexivity.
  - reflexivity.
Defined.

Lemma getIntValue_spec_witness :
  getIntValue asciiIsWhitespace int32 (chars " 2147483648 ") = -2147483648.
Proof.
  assert (Hds : Forall isAsciiDigit (chars "2147483648"))
    by (repeat constructor; discriminate).
  assert (Hrest : ~ isAsciiDigit (deref [32]))
    by (unfold isAsciiDigit; simpl; lia).
  pose proof (getIntValue_spec asciiIsWhitespace int32 (chars " 2147483648 ")
                (chars "2147483648") [32] eq_refl Hds Hrest) as H.
  destruct H as (H & _). exact H.
Defined.

Lemma compare_spec_witness :
  compare (chars "abc") (chars "abd")
  = - Z.sgn (compare (chars "abd") (chars "abc")).
Proof.
  apply (proj2 (proj2 compare_spec));
    repeat constructor; reflexivity.
Defined.

Lemma indexOf_spec_witness : indexOf (chars "abcdef") (chars "cd") = 2.
Proof.
  apply (proj1 (indexOf_spec (chars "abcdef") (chars "cd")
                  ltac:(repeat constructor; reflexivity)
                  ltac:(repeat constructor; reflexivity)
                  ltac:(reflexivity) ltac:(reflexivity)) 2%nat).
  - reflexivity.
  - intros j Hj. destruct j as [|[|j]]; [discriminate | discriminate | lia].
Defined.

Lemma copyAndAdvanceUpToBytes_spec_witness :
  exists k,
    let all := withTerminator (chars "abc") in
    let written := firstn k all in
    (k <= List.length all)%nat
    /\ copyAndAdvanceUpToBytes utf8BytesRequiredFor (chars "abc") 2
       = (written, bytesOf utf8BytesRequiredFor written)
    /\ bytesOf utf8BytesRequiredFor written <= 2
    /\ ((k < List.length all)%nat ->
        bytesOf utf8BytesRequiredFor written
        + utf8BytesRequiredFor (nth k all 0) > 2).
Proof.
  apply (proj1 (copyAndAdvanceUpToBytes_spec utf8BytesRequiredFor (chars "abc")
                  2
                  ltac:(intros c; unfold utf8BytesRequiredFor; zcases; lia)
                  ltac:(repeat constructor; reflexivity)
                  ltac:(lia))).
Defined.

Lemma getDoubleValue_no_digits_witness :
  getDoubleValue asciiIsWhitespace asciiIsDigit mulexp10_pow (chars " -")
  = Some neg_zero.
Proof.
  pose proof (getDoubleValue_no_digits asciiIsWhitespace asciiIsDigit
                mulexp10_pow (chars " -") eq_refl eq_refl) as H.
  cbv zeta in H. destruct H as (_ & _ & _ & H & _).
  apply H. reflexivity.
Defined.

Lemma getDoubleValue_exponent_needs_digit_witness :
  getDoubleValue asciiIsWhitespace asciiIsDigit mulexp10_pow (chars "e5")
  = Some pos_zero.
Proof.
  pose proof (getDoubleValue_exponent_needs_digit asciiIsWhitespace
                asciiIsDigit mulexp10_pow (chars "e5") eq_refl eq_refl) as H.
  destruct H as (_ & _ & H).
  apply H; reflexivity.
Defined.

Lemma digit_cap_policy_witness :
  scan_s stateAfter17Digits = chars "89x"
  /\ numSignificantDigits stateAfter17Digits = 17
  /\ exponentAdjustment
       (snd (scanStep asciiIsDigit mulexp10_pow stateAfter17Digits))
     = (2, 0)
  /\ accumulator (snd (scanStep asciiIsDigit mulexp10_pow stateAfter17Digits))
     = (dadd (fst (accumulator stateAfter17Digits)) (of_int 1), pos_zero)
  /\ scan_s (snd (scanStep asciiIsDigit mulexp10_pow stateAfter17Digits))
     = chars "x".
Proof.
  pose proof (digit_cap_policy asciiIsDigit mulexp10_pow stateAfter17Digits
                56 (chars "9x") eq_refl eq_refl) as (_ & _ & H & _).
  destruct (H eq_refl eq_refl) as (H1 & H2 & _ & _ & H5).
  split; [reflexivity|]. split; [reflexivity|].
  split; [exact H1|]. split; [exact H2 | exact H5].
Defined.

(** The cap seen from outside: of [1234567890123456789x] the first 17 digits
    are kept, the 18th rounds the 17th up and the two digits beyond the cap
    scale the value by 100; the local pointer ends at [x]. *)
Example getDoubleValue_beyond_cap :
  getDoubleValue_scan asciiIsWhitespace asciiIsDigit mulexp10_pow
    (chars "1234567890123456789x")
  = Some (of_int 1234567890123456800, chars "x").
Proof. vm_compute. reflexivity. Qed.

(** Half-way cases: a dropped 5 rounds up after an odd digit only. *)
Example getDoubleValue_half_to_even :
  getDoubleValue asciiIsWhitespace asciiIsDigit mulexp10_pow
    (chars "123456789012345675")
  = Some (of_int 123456789012345680)
  /\ getDoubleValue asciiIsWhitespace asciiIsDigit mulexp10_pow
       (chars "123456789012345665")
     = Some (of_int 123456789012345660)
  /\ of_int 123456789012345660 <> of_int 123456789012345680.
Proof.
  split; [vm_compute; reflexivity|].
  split; [vm_compute; reflexivity|].
  vm_compute. intros H. discriminate H.
Qed.

(** * Further properties of the primitives *)

Section MoreProperties.

Variable isWhitespace : juce_wchar -> bool.
Variable isDigit : juce_wchar -> bool.
Variable mulexp10 : double -> Z -> double.
Variable getBytesRequiredFor : juce_wchar -> Z.
Variable toUpperCase : juce_wchar -> juce_wchar.
Variable toLowerCase : juce_wchar -> juce_wchar.

(** ** findEndOfWhitespace *)

(** X1. [findEndOfWhitespace] splits a text into a run of whitespace and the
    rest: the code points it skips are all whitespace, the position it
    returns is not at whitespace, and applying it again changes nothing. *)
Theorem findEndOfWhitespace_decompose (text : CharPointer) :
  (exists ws,
      text = ws ++ findEndOfWhitespace isWhitespace text
      /\ Forall (fun c => isWhitespace c = true) ws)
  /\ ptrIsWhitespace isWhitespace (findEndOfWhitespace isWhitespace text) = false
  /\ findEndOfWhitespace isWhitespace (findEndOfWhitespace isWhitespace text)
     = findEndOfWhitespace isWhitespace text.
Proof.
  induction text as [|c text IH].
  - repeat split. exists []. split; [reflexivity | constructor].
  - destruct IH as ((ws & Heq & Hws) & Hnot & Hidem).
    cbn [findEndOfWhitespace ptrIsWhitespace].
    destruct (isWhitespace c) eqn:Hc.
    + split; [|split; assumption].
      exists (c :: ws). split; [cbn; congruence | constructor; assumption].
    + split; [exists []; split; [reflexivity | constructor]|].
      split; [cbn; exact Hc|].
      cbn [findEndOfWhitespace ptrIsWhitespace]. rewrite Hc. reflexivity.
Qed.

(** ** copyAndAdvance and copyAndAdvanceUpToNumChars *)

Lemma copyAndAdvance_loop_spec : forall src dest,
  copyAndAdvance_loop dest src = dest ++ textBeforeTerminator src ++ [0].
Proof.
  induction src as [|c src IH]; intros dest; [reflexivity|].
  cbn [copyAndAdvance_loop getAndAdvance deref hd textBeforeTerminator].
  destruct (Z.eqb_spec c 0) as [->|Hc]; cbn [negb].
  - reflexivity.
  - rewrite IH, <- app_assoc. reflexivity.
Qed.

Lemma textBeforeTerminator_valid s :
  validText s -> textBeforeTerminator s = s.
Proof.
  induction 1 as [|c s Hc _ IH]; [reflexivity|].
  unfold validCodePoint in Hc. cbn [textBeforeTerminator].
  destruct (Z.eqb_spec c 0); [lia | rewrite IH; reflexivity].
Qed.

Lemma textBeforeTerminator_no_zero s : ~ In 0 (textBeforeTerminator s).
Proof.
  induction s as [|c s IH]; [exact (fun H => H)|].
  cbn [textBeforeTerminator]. destruct (Z.eqb_spec c 0); [exact (fun H => H)|].
  intros [H|H]; [congruence | exact (IH H)].
Qed.

(** X2. [copyAndAdvance] writes the code points of the source up to its
    terminator and then the terminator, and nothing else: the destination
    holds exactly one terminator, at its end; for a source made of code
    points it is the source followed by the terminator. *)
Theorem copyAndAdvance_spec (src : CharPointer) :
  copyAndAdvance src = textBeforeTerminator src ++ [0]
  /\ ~ In 0 (removelast (copyAndAdvance src))
  /\ (validText src -> copyAndAdvance src = withTerminator src).
Proof.
  assert (H : copyAndAdvance src = textBeforeTerminator src ++ [0])
    by (unfold copyAndAdvance; rewrite copyAndAdvance_loop_spec; reflexivity).
  split; [exact H|]. split.
  - rewrite H, removelast_last. apply textBeforeTerminator_no_zero.
  - intros Hv. rewrite H, textBeforeTerminator_valid by exact Hv. reflexivity.
Qed.

Lemma copyAndAdvanceUpToNumChars_loop_spec : forall src dest maxChars,
  - 2 ^ 31 < maxChars < 2 ^ 31 ->
  copyAndAdvanceUpToNumChars_loop dest src maxChars
  = dest ++ firstn (Z.to_nat maxChars) (textBeforeTerminator src ++ [0]).
Proof.
  induction src as [|c src IH]; intros dest m Hm.
  - cbn [copyAndAdvanceUpToNumChars_loop getAndAdvance deref hd
         textBeforeTerminator app].
    unfold decr. rewrite wrap32_small by lia.
    destruct (Z.geb_spec (m - 1) 0).
    + replace (Z.to_nat m) with (S (Z.to_nat (m - 1))) by lia.
      cbn. rewrite firstn_nil. reflexivity.
    + replace (Z.to_nat m) with O by lia. cbn. rewrite app_nil_r. reflexivity.
  - cbn [copyAndAdvanceUpToNumChars_loop getAndAdvance deref hd
         textBeforeTerminator].
    unfold decr. rewrite wrap32_small by lia.
    destruct (Z.geb_spec (m - 1) 0).
    + replace (Z.to_nat m) with (S (Z.to_nat (m - 1))) by lia.
      destruct (Z.eqb_spec c 0) as [->|Hc].
      * cbn. rewrite firstn_nil. reflexivity.
      * rewrite IH by lia. cbn [app firstn]. rewrite <- app_assoc. reflexivity.
    + replace (Z.to_nat m) with O by lia. cbn. rewrite app_nil_r. reflexivity.
Qed.

(** X3. [copyAndAdvanceUpToNumChars] writes the first [maxChars] code points
    of the source followed by its terminator, and nothing for a bound that is
    not positive.  So the destination ends with the terminator exactly when
    the bound exceeds the length of the source, in which case the result is
    that of [copyAndAdvance]. *)
Theorem copyAndAdvanceUpToNumChars_spec (src : CharPointer) (maxChars : Z) :
  - 2 ^ 31 < maxChars < 2 ^ 31 ->
  copyAndAdvanceUpToNumChars src maxChars
  = firstn (Z.to_nat maxChars) (textBeforeTerminator src ++ [0])
  /\ (maxChars <= 0 -> copyAndAdvanceUpToNumChars src maxChars = [])
  /\ (Z.of_nat (List.length (textBeforeTerminator src)) < maxChars ->
      copyAndAdvanceUpToNumChars src maxChars = copyAndAdvance src)
  /\ (0 <= maxChars <= Z.of_nat (List.length (textBeforeTerminator src)) ->
      copyAndAdvanceUpToNumChars src maxChars
      = firstn (Z.to_nat maxChars) (textBeforeTerminator src)).
Proof.
  intros Hm.
  assert (H : copyAndAdvanceUpToNumChars src maxChars
              = firstn (Z.to_nat maxChars) (textBeforeTerminator src ++ [0]))
    by (unfold copyAndAdvanceUpToNumChars;
        rewrite copyAndAdvanceUpToNumChars_loop_spec by exact Hm; reflexivity).
  split; [exact H|]. split; [|split].
  - intros Hle. rewrite H. replace (Z.to_nat maxChars) with O by lia.
    reflexivity.
  - intros Hlt. rewrite H. unfold copyAndAdvance.
    rewrite copyAndAdvance_loop_spec. cbn [app].
    apply firstn_all2. rewrite length_app. cbn [List.length]. lia.
  - intros Hle. rewrite H. rewrite firstn_app.
    replace (Z.to_nat maxChars - List.length (textBeforeTerminator src))%nat
      with O by lia.
    cbn [firstn]. apply app_nil_r.
Qed.

(** ** copyAndAdvanceUpToBytes with room for everything *)

(** X4. When the byte budget covers the whole source and its terminator,
    [copyAndAdvanceUpToBytes] writes what [copyAndAdvance] writes and returns
    the size of all of it. *)
Theorem copyAndAdvanceUpToBytes_enough (src : CharPointer) (maxBytes : Z) :
  (forall c, 0 <= getBytesRequiredFor c < 2 ^ 31) ->
  validText src ->
  bytesOf getBytesRequiredFor (withTerminator src) <= maxBytes < 2 ^ 31 ->
  copyAndAdvanceUpToBytes getBytesRequiredFor src maxBytes
  = (copyAndAdvance src, bytesOf getBytesRequiredFor (withTerminator src)).
Proof.
  intros HB Hsrc Hmb.
  pose proof (bytesOf_nonneg getBytesRequiredFor (withTerminator src)
                (fun c => proj1 (HB c)))
    as H0.
  destruct (copyAndAdvanceUpToBytes_loop_spec getBytesRequiredFor HB src []
              maxBytes 0 Hsrc ltac:(lia) ltac:(lia) ltac:(lia))
    as (k & Hk & Heq & Hfit & Hnext).
  assert (Hall : k = List.length (withTerminator src)).
  { destruct (Nat.eq_dec k (List.length (withTerminator src))) as [E|E];
      [exact E|].
    assert (Hlt : (k < List.length (withTerminator src))%nat) by lia.
    specialize (Hnext Hlt).
    pose proof (bytesOf_prefix_next getBytesRequiredFor (withTerminator src) k
                  (fun c => proj1 (HB c)) Hlt). lia. }
  unfold copyAndAdvanceUpToBytes. rewrite Heq, Hall, firstn_all. cbn [app].
  rewrite Z.add_0_l.
  f_equal. unfold copyAndAdvance. rewrite copyAndAdvance_loop_spec.
  rewrite textBeforeTerminator_valid by exact Hsrc. reflexivity.
Qed.

(** ** compare as an order *)

Lemma compare_lex : forall a b,
  validText a -> validText b -> compare a b = signOf (lexCompare a b).
Proof.
  induction a as [|x a IH]; intros b Ha Hb.
  - destruct b as [|y b]; [reflexivity|].
    inversion Hb as [|? ? Hy _]; subst.
    cbn [compare deref hd lexCompare signOf].
    rewrite (wrap32_valid y Hy). change (wrap32 0) with 0.
    unfold validCodePoint in Hy. rewrite wrap32_small by lia.
    zcases; cbn [negb]; zcases; try lia; reflexivity.
  - inversion Ha as [|? ? Hx Ha']; subst.
    destruct b as [|y b].
    + cbn [compare deref hd lexCompare signOf].
      rewrite (wrap32_valid x Hx). change (wrap32 0) with 0.
      unfold validCodePoint in Hx. rewrite wrap32_small by lia.
      zcases; cbn [negb]; zcases; try lia; reflexivity.
    + inversion Hb as [|? ? Hy Hb']; subst.
      cbn [compare deref hd advance tl lexCompare].
      rewrite (wrap32_valid x Hx), (wrap32_valid y Hy).
      unfold validCodePoint in Hx, Hy. rewrite wrap32_small by lia.
      destruct (Z.compare_spec x y) as [E|L|G].
      * subst y. rewrite Z.sub_diag. cbn [Z.eqb negb].
        destruct (Z.eqb_spec x 0); [lia|]. apply IH; assumption.
      * cbn [signOf]. zcases; cbn [negb]; zcases; try lia; reflexivity.
      * cbn [signOf]. zcases; cbn [negb]; zcases; try lia; reflexivity.
Qed.

Lemma lexCompare_eq : forall a b, lexCompare a b = Eq <-> a = b.
Proof.
  induction a as [|x a IH]; intros [|y b]; cbn [lexCompare];
    try (split; discriminate); [split; reflexivity|].
  destruct (Z.compare_spec x y) as [E|L|G].
  - subst y. rewrite IH. split; [intros ->; reflexivity | intros H; inversion H; reflexivity].
  - split; [discriminate | intros H; inversion H; lia].
  - split; [discriminate | intros H; inversion H; lia].
Qed.

Lemma lexCompare_trans : forall a b c,
  lexCompare a b = Lt -> lexCompare b c = Lt -> lexCompare a c = Lt.
Proof.
  induction a as [|x a IH]; intros [|y b] [|z c]; cbn [lexCompare];
    try discriminate; try reflexivity.
  destruct (Z.compare_spec x y) as [E1|L1|G1]; try discriminate;
    destruct (Z.compare_spec y z) as [E2|L2|G2]; try discriminate;
    destruct (Z.compare_spec x z) as [E3|L3|G3]; try lia; try reflexivity.
  apply IH.
Qed.

(** X5. On texts of code points [compare] is the lexicographic order by code
    point, a proper prefix coming first: it answers 0 exactly for equal
    texts, and "less than" is transitive. *)
Theorem compare_lexicographic (a b c : CharPointer) :
  validText a -> validText b -> validText c ->
  compare a b = signOf (lexCompare a b)
  /\ (compare a b = 0 <-> a = b)
  /\ (compare a b = -1 -> compare b c = -1 -> compare a c = -1).
Proof.
  intros Ha Hb Hc.
  rewrite !compare_lex by assumption.
  split; [reflexivity|]. split.
  - rewrite <- lexCompare_eq. destruct (lexCompare a b); cbn; split;
      intros H; try discriminate; try reflexivity.
  - destruct (lexCompare a b) eqn:E1; try discriminate.
    destruct (lexCompare b c) eqn:E2; try discriminate.
    intros _ _. rewrite (lexCompare_trans a b c E1 E2). reflexivity.
Qed.

(** ** compareUpTo *)

Lemma advance_firstn n (b : CharPointer) :
  advance (firstn (S n) b) = firstn n (advance b).
Proof.
  destruct b; [|reflexivity].
  cbn [advance tl firstn]. rewrite firstn_nil. reflexivity.
Qed.

Lemma deref_firstn n (b : CharPointer) : deref (firstn (S n) b) = deref b.
Proof. destruct b; reflexivity. Qed.

Lemma compare_unfold s1 s2 :
  compare s1 s2
  = let c1 := wrap32 (deref s1) in
    let c2 := wrap32 (deref s2) in
    let diff := wrap32 (c1 - c2) in
    if negb (diff =? 0) then (if diff <? 0 then -1 else 1)
    else if c1 =? 0 then 0
    else match s1 with
         | [] => 0
         | _ :: s1' => compare s1' (advance s2)
         end.
Proof. destruct s1; reflexivity. Qed.

Lemma compareUpTo_firstn : forall n a b,
  Z.of_nat n < 2 ^ 31 ->
  compareUpTo a b (Z.of_nat n) = compare (firstn n a) (firstn n b).
Proof.
  induction n as [|n IH]; intros a b Hn.
  - rewrite compareUpTo_unfold. reflexivity.
  - rewrite compareUpTo_unfold, decr_of_nat_S by exact Hn.
    destruct (Z.geb_spec (Z.of_nat n) 0); [|lia].
    rewrite (compare_unfold (firstn (S n) a)).
    rewrite !deref_firstn, advance_firstn. cbn zeta.
    destruct (negb _); [reflexivity|].
    destruct (_ =? 0); [reflexivity|].
    destruct a as [|x a]; [reflexivity|].
    rewrite firstn_cons. apply IH. lia.
Qed.

(** X6. [compareUpTo] is [compare] on the first [maxChars] code points of
    both texts; a bound that reaches the end of both texts gives what
    [compare] gives, and a bound that is not positive gives 0. *)
Theorem compareUpTo_prefixes (a b : CharPointer) (n : nat) :
  Z.of_nat n < 2 ^ 31 ->
  compareUpTo a b (Z.of_nat n) = compare (firstn n a) (firstn n b)
  /\ ((List.length a <= n)%nat -> (List.length b <= n)%nat ->
      compareUpTo a b (Z.of_nat n) = compare a b)
  /\ (forall m, - 2 ^ 31 < m <= 0 -> compareUpTo a b m = 0).
Proof.
  intros Hn. split; [apply compareUpTo_firstn, Hn|]. split.
  - intros Ha Hb. rewrite compareUpTo_firstn by exact Hn.
    rewrite !firstn_all2 by assumption. reflexivity.
  - intros m Hm. rewrite compareUpTo_unfold. unfold decr.
    rewrite wrap32_small by lia.
    destruct (Z.geb_spec (m - 1) 0); [lia | reflexivity].
Qed.

(** ** compareIgnoreCase and compareIgnoreCaseUpTo *)

Lemma compareIgnoreCase_map : forall a b,
  compareIgnoreCase toUpperCase a b
  = compare (map toUpperCase a) (map toUpperCase b).
Proof.
  induction a as [|x a IH]; intros b.
  - destruct b; reflexivity.
  - destruct b as [|y b];
      cbn [compareIgnoreCase compare map ptrToUpperCase deref hd advance tl];
      rewrite IH; reflexivity.
Qed.

Lemma compareIgnoreCaseUpTo_map : forall a b m,
  compareIgnoreCaseUpTo toUpperCase a b m
  = compareUpTo (map toUpperCase a) (map toUpperCase b) m.
Proof.
  induction a as [|x a IH]; intros b m.
  - destruct b; reflexivity.
  - destruct b as [|y b];
      cbn [compareIgnoreCaseUpTo compareUpTo map ptrToUpperCase deref hd
           advance tl];
      rewrite IH; reflexivity.
Qed.

(** X7. The comparisons that ignore case are the ordinal comparisons of the
    upper-cased texts: [compareIgnoreCase] is [compare] and
    [compareIgnoreCaseUpTo] is [compareUpTo] after [toUpperCase] has been
    applied to every code point.  Texts that agree once upper-cased compare
    equal, and when the upper-cased texts are made of code points only such
    texts do. *)
Theorem compareIgnoreCase_fold (a b : CharPointer) (maxChars : Z) :
  compareIgnoreCase toUpperCase a b
  = compare (map toUpperCase a) (map toUpperCase b)
  /\ compareIgnoreCaseUpTo toUpperCase a b maxChars
     = compareUpTo (map toUpperCase a) (map toUpperCase b) maxChars
  /\ (map toUpperCase a = map toUpperCase b ->
      compareIgnoreCase toUpperCase a b = 0)
  /\ (validText (map toUpperCase a) -> validText (map toUpperCase b) ->
      compareIgnoreCase toUpperCase a b = 0 ->
      map toUpperCase a = map toUpperCase b).
Proof.
  split; [apply compareIgnoreCase_map|].
  split; [apply compareIgnoreCaseUpTo_map|].
  rewrite compareIgnoreCase_map. split.
  - intros ->. apply compare_refl.
  - intros Ha Hb H. rewrite compare_lex in H by assumption.
    apply lexCompare_eq. destruct (lexCompare _ _); [reflexivity | | ];
      discriminate H.
Qed.

(** ** indexOfChar and indexOfCharIgnoreCase *)

Lemma textBeforeTerminator_length s :
  (List.length (textBeforeTerminator s) <= List.length s)%nat.
Proof.
  induction s as [|c s IH]; [reflexivity|].
  cbn [textBeforeTerminator]. destruct (c =? 0); cbn [List.length]; lia.
Qed.

Lemma firstIndex_none p l :
  firstIndex p l = None <-> (forall x, In x l -> p x = false).
Proof.
  induction l as [|c l IH]; cbn [firstIndex].
  - split; [intros _ x [] | reflexivity].
  - destruct (p c) eqn:Hc.
    + split; [discriminate|]. intros H. specialize (H c (or_introl eq_refl)).
      congruence.
    + destruct (firstIndex p l) as [k|]; cbn [option_map].
      * split; [discriminate|]. intros H.
        assert (Hn : Some k = None)
          by (apply IH; intros x Hx; apply H; right; exact Hx).
        discriminate Hn.
      * split; [|reflexivity]. intros _ x [->|Hx]; [exact Hc|].
        apply (proj1 IH eq_refl x Hx).
Qed.

Lemma firstIndex_some p l : forall k,
  firstIndex p l = Some k ->
  p (nth k l 0) = true /\ (k < List.length l)%nat
  /\ forall j, (j < k)%nat -> p (nth j l 0) = false.
Proof.
  induction l as [|c l IH]; intros k; cbn [firstIndex]; [discriminate|].
  destruct (p c) eqn:Hc.
  - intros H. inversion H; subst. cbn. repeat split; [exact Hc | lia | lia].
  - destruct (firstIndex p l) as [k'|]; cbn [option_map]; [|discriminate].
    intros H. inversion H; subst.
    destruct (IH k' eq_refl) as (H1 & H2 & H3).
    cbn [nth List.length]. repeat split; [exact H1 | lia |].
    intros [|j] Hj; [exact Hc | apply H3; lia].
Qed.

Lemma indexOfChar_loop_spec c : forall text i,
  0 <= i -> i + Z.of_nat (List.length text) < 2 ^ 31 ->
  indexOfChar_loop text c i
  = match firstIndex (fun x => x =? c) (textBeforeTerminator text) with
    | Some k => i + Z.of_nat k
    | None => -1
    end.
Proof.
  induction text as [|x text IH]; intros i Hi Hb; [reflexivity|].
  cbn [indexOfChar_loop getAndAdvance fst textBeforeTerminator].
  unfold isEmpty. cbn [deref hd].
  destruct (Z.eqb_spec x 0) as [->|Hx]; cbn [negb]; [reflexivity|].
  cbn [firstIndex]. destruct (Z.eqb_spec x c); [cbv iota; lia|].
  cbn [List.length] in Hb.
  assert (Hincr : incr i = i + 1) by (unfold incr; apply wrap32_small; lia).
  rewrite Hincr, IH by lia.
  destruct (firstIndex _ _); cbn [option_map]; lia.
Qed.

(** X8. [indexOfChar] returns the offset of the first occurrence of the code
    point before the terminator, and -1 exactly when it does not occur there;
    the terminator itself is never found. *)
Theorem indexOfChar_spec (text : CharPointer) (charToFind : juce_wchar) :
  Z.of_nat (List.length text) < 2 ^ 31 ->
  indexOfChar text charToFind
  = indexOrMinusOne
      (firstIndex (fun x => x =? charToFind) (textBeforeTerminator text))
  /\ (indexOfChar text charToFind = -1
      <-> ~ In charToFind (textBeforeTerminator text))
  /\ (forall k, indexOfChar text charToFind = Z.of_nat k ->
        nth k (textBeforeTerminator text) 0 = charToFind
        /\ (k < List.length (textBeforeTerminator text))%nat
        /\ forall j, (j < k)%nat ->
             nth j (textBeforeTerminator text) 0 <> charToFind)
  /\ indexOfChar text 0 = -1.
Proof.
  intros Hlen.
  assert (Hmain : forall c,
    indexOfChar text c
    = indexOrMinusOne (firstIndex (fun x => x =? c) (textBeforeTerminator text))).
  { intros c. unfold indexOfChar.
    rewrite indexOfChar_loop_spec by lia.
    destruct (firstIndex _ _); cbn [indexOrMinusOne]; lia. }
  split; [apply Hmain|]. split; [|split].
  - rewrite Hmain.
    destruct (firstIndex _ _) as [k|] eqn:E; cbn [indexOrMinusOne].
    + split; [lia|]. intros Hnot. exfalso. apply Hnot.
      destruct (firstIndex_some _ _ _ E) as (H1 & H2 & _).
      apply Z.eqb_eq in H1. rewrite <- H1. apply nth_In. exact H2.
    + split; [|reflexivity]. intros _ Hin.
      apply (proj1 (firstIndex_none _ _)) with (x := charToFind) in E;
        [|exact Hin].
      rewrite Z.eqb_refl in E. discriminate.
  - intros k. rewrite Hmain.
    destruct (firstIndex _ _) as [k'|] eqn:E; cbn [indexOrMinusOne]; [|lia].
    intros Hk. assert (k' = k) by lia. subst k'.
    destruct (firstIndex_some _ _ _ E) as (H1 & H2 & H3).
    split; [apply Z.eqb_eq, H1|]. split; [exact H2|].
    intros j Hj. specialize (H3 j Hj). apply Z.eqb_neq. exact H3.
  - rewrite Hmain.
    destruct (firstIndex _ _) as [k|] eqn:E; [|reflexivity].
    exfalso. destruct (firstIndex_some _ _ _ E) as (H1 & H2 & _).
    apply Z.eqb_eq in H1.
    apply (textBeforeTerminator_no_zero text). rewrite <- H1.
    apply nth_In. exact H2.
Qed.

Lemma indexOfCharIgnoreCase_loop_spec c : forall text i,
  0 <= i -> i + Z.of_nat (List.length text) < 2 ^ 31 ->
  indexOfCharIgnoreCase_loop toLowerCase text c i
  = match firstIndex (fun x => toLowerCase x =? c) (textBeforeTerminator text)
    with
    | Some k => i + Z.of_nat k
    | None => -1
    end.
Proof.
  induction text as [|x text IH]; intros i Hi Hb; [reflexivity|].
  cbn [indexOfCharIgnoreCase_loop ptrToLowerCase textBeforeTerminator].
  unfold isEmpty. cbn [deref hd].
  destruct (Z.eqb_spec x 0) as [->|Hx]; cbn [negb]; [reflexivity|].
  cbn [firstIndex]. destruct (Z.eqb_spec (toLowerCase x) c); [cbv iota; lia|].
  cbn [List.length] in Hb.
  assert (Hincr : incr i = i + 1) by (unfold incr; apply wrap32_small; lia).
  rewrite Hincr, IH by lia.
  destruct (firstIndex _ _); cbn [option_map]; lia.
Qed.

(** X9. [indexOfCharIgnoreCase] returns the offset of the first code point
    before the terminator whose lower case is the lower case of the code
    point looked for, and -1 exactly when there is none. *)
Theorem indexOfCharIgnoreCase_spec (text : CharPointer)
    (charToFind : juce_wchar) :
  Z.of_nat (List.length text) < 2 ^ 31 ->
  indexOfCharIgnoreCase toLowerCase text charToFind
  = indexOrMinusOne
      (firstIndex (fun x => toLowerCase x =? toLowerCase charToFind)
                  (textBeforeTerminator text))
  /\ (indexOfCharIgnoreCase toLowerCase text charToFind = -1
      <-> forall x, In x (textBeforeTerminator text) ->
                    toLowerCase x <> toLowerCase charToFind).
Proof.
  intros Hlen.
  assert (Hmain :
    indexOfCharIgnoreCase toLowerCase text charToFind
    = indexOrMinusOne
        (firstIndex (fun x => toLowerCase x =? toLowerCase charToFind)
                    (textBeforeTerminator text))).
  { unfold indexOfCharIgnoreCase.
    rewrite indexOfCharIgnoreCase_loop_spec by lia.
    destruct (firstIndex _ _); cbn [indexOrMinusOne]; lia. }
  split; [exact Hmain|]. rewrite Hmain.
  destruct (firstIndex _ _) as [k|] eqn:E; cbn [indexOrMinusOne].
  - split; [lia|]. intros Hnot. exfalso.
    destruct (firstIndex_some _ _ _ E) as (H1 & H2 & _).
    apply Z.eqb_eq in H1. apply (Hnot _ (nth_In _ 0 H2)). exact H1.
  - split; [|reflexivity]. intros _ x Hin.
    apply (proj1 (firstIndex_none _ _)) with (x := x) in E; [|exact Hin].
    apply Z.eqb_neq. exact E.
Qed.

(** ** indexOf with a needle of one code point *)

Lemma indexOf_loop_single c : validCodePoint c ->
  forall h i, validText h ->
    indexOf_loop h [c] 1 i = indexOfChar_loop h c i.
Proof.
  intros Hc.
  assert (Hn : validText [c]) by (constructor; [exact Hc | constructor]).
  induction h as [|x h IH]; intros i Hh.
  - pose proof (compareUpTo_prefix [c] [] Hn Hh ltac:(cbn; lia)) as Hp.
    cbn [List.length] in Hp. change (Z.of_nat 1) with 1 in Hp.
    cbn [indexOf_loop getAndAdvance deref hd fst].
    destruct (Z.eqb_spec (compareUpTo [] [c] 1) 0) as [E|E].
    + apply Hp in E. discriminate E.
    + reflexivity.
  - pose proof (compareUpTo_prefix [c] (x :: h) Hn Hh ltac:(cbn; lia)) as Hp.
    cbn [List.length firstn] in Hp. change (Z.of_nat 1) with 1 in Hp.
    inversion Hh as [|? ? Hx Hh']; subst. unfold validCodePoint in Hx.
    cbn [indexOf_loop indexOfChar_loop getAndAdvance fst].
    unfold isEmpty. cbn [deref hd].
    destruct (Z.eqb_spec x 0); [lia|]. cbn [negb].
    destruct (Z.eqb_spec (compareUpTo (x :: h) [c] 1) 0) as [E|E].
    + apply Hp in E. inversion E; subst. rewrite Z.eqb_refl. reflexivity.
    + destruct (Z.eqb_spec x c) as [->|Hxc].
      * exfalso. apply E, Hp. reflexivity.
      * apply IH. exact Hh'.
Qed.

(** X10. Searching for a needle of one code point with [indexOf] gives what
    [indexOfChar] gives for that code point. *)
Theorem indexOf_single (haystack : CharPointer) (c : juce_wchar) :
  validText haystack -> validCodePoint c ->
  indexOf haystack [c] = indexOfChar haystack c.
Proof.
  intros Hh Hc. unfold indexOf, indexOfChar.
  assert (Hlen : wrap32 (length_ [c]) = 1).
  { unfold validCodePoint in Hc. cbn [length_].
    destruct (Z.eqb_spec c 0); [lia | reflexivity]. }
  rewrite Hlen. apply indexOf_loop_single; assumption.
Qed.

(** ** getIntValue without overflow *)

Lemma getIntValue_value T text ds rest :
  (if deref (findEndOfWhitespace isWhitespace text) =? 45
   then advance (findEndOfWhitespace isWhitespace text)
   else findEndOfWhitespace isWhitespace text) = ds ++ rest ->
  Forall isAsciiDigit ds ->
  ~ isAsciiDigit (deref rest) ->
  getIntValue isWhitespace T text
  = cast T ((if deref (findEndOfWhitespace isWhitespace text) =? 45
             then -1 else 1) * decimalValue ds).
Proof.
  intros Hs Hds Hrest.
  unfold getIntValue, getIntValue_scan. rewrite Hs.
  destruct (getIntValue_loop_digits T ds rest 0 Hds Hrest) as [Hv _].
  pose proof (getIntValue_loop_range T (ds ++ rest) 0) as Hr.
  destruct (getIntValue_loop T 0 (ds ++ rest)) as [v s'].
  cbn [fst snd] in *.
  assert (H0 : minValue T <= 0 <= maxValue T)
    by (destruct T; cbv; split; discriminate).
  specialize (Hr H0).
  rewrite (cast_small T v Hr) in Hv.
  fold (decimalValue ds) in Hv.
  destruct (deref (findEndOfWhitespace isWhitespace text) =? 45).
  - rewrite Hv, cast_opp. f_equal; lia.
  - rewrite Hv. f_equal; lia.
Qed.

(** X11. When the signed decimal value of the digits fits the integer type,
    [getIntValue] returns that value itself: nothing wraps, and this includes
    the most negative value of the type. *)
Theorem getIntValue_exact (T : IntType) (text ds rest : CharPointer) :
  let s := findEndOfWhitespace isWhitespace text in
  let sign := if deref s =? 45 then -1 else 1 in
  (if deref s =? 45 then advance s else s) = ds ++ rest ->
  Forall isAsciiDigit ds ->
  ~ isAsciiDigit (deref rest) ->
  minValue T <= sign * decimalValue ds <= maxValue T ->
  getIntValue isWhitespace T text = sign * decimalValue ds.
Proof.
  intros s sign Hs Hds Hrest Hfit. subst s sign.
  rewrite (getIntValue_value T text ds rest Hs Hds Hrest).
  apply cast_small. exact Hfit.
Qed.

(** ** getDoubleValue: termination and the local pointer *)

Lemma isSuffixOf_refl s : isSuffixOf s s.
Proof. exists O. reflexivity. Qed.

Lemma isSuffixOf_trans a b c :
  isSuffixOf a b -> isSuffixOf b c -> isSuffixOf a c.
Proof.
  intros [n ->] [m ->]. exists (n + m)%nat. apply skipn_skipn.
Qed.

Lemma isSuffixOf_advance s : isSuffixOf (advance s) s.
Proof. exists 1%nat. destruct s; reflexivity. Qed.

Lemma isSuffixOf_tail c s t : isSuffixOf t s -> isSuffixOf t (c :: s).
Proof. intros [n ->]. exists (S n). reflexivity. Qed.

Lemma skipDigits_suffix : forall s, isSuffixOf (skipDigits isDigit s) s.
Proof.
  induction s as [|c s IH]; [apply isSuffixOf_refl|].
  cbn [skipDigits ptrIsDigit]. destruct (isDigit c).
  - apply isSuffixOf_tail, IH.
  - apply isSuffixOf_refl.
Qed.

Lemma findEndOfWhitespace_isSuffix : forall text,
  isSuffixOf (findEndOfWhitespace isWhitespace text) text.
Proof.
  induction text as [|c text IH]; [apply isSuffixOf_refl|].
  cbn [findEndOfWhitespace ptrIsWhitespace]. destruct (isWhitespace c).
  - apply isSuffixOf_tail, IH.
  - apply isSuffixOf_refl.
Qed.

Lemma readSign_suffix s : isSuffixOf (snd (readSign s)) s.
Proof.
  unfold readSign. destruct (deref s =? 45); [apply isSuffixOf_advance|].
  destruct (deref s =? 43); [apply isSuffixOf_advance | apply isSuffixOf_refl].
Qed.

Lemma exponentDigits_suffix : forall s e,
  isSuffixOf (snd (exponentDigits isDigit s e)) s.
Proof.
  induction s as [|c s IH]; intros e; [apply isSuffixOf_refl|].
  cbn [exponentDigits ptrIsDigit]. destruct (isDigit c).
  - apply isSuffixOf_tail, IH.
  - apply isSuffixOf_refl.
Qed.

Lemma scanStep_suffix st :
  isSuffixOf (scan_s (snd (scanStep isDigit mulexp10 st))) (scan_s st).
Proof.
  unfold scanStep.
  destruct (scan_s st) as [|c s1] eqn:Hs.
  - cbn [ptrIsDigit deref hd]. rewrite andb_false_r. cbn [snd].
    rewrite Hs. apply isSuffixOf_refl.
  - cbn [ptrIsDigit getAndAdvance deref hd advance tl].
    destruct (isDigit c).
    + destruct (_ && _); [apply isSuffixOf_tail, isSuffixOf_refl|].
      destruct (_ >? _).
      * rewrite skipDigitsAdjusting_spec. cbn [snd scan_s].
        apply isSuffixOf_tail, skipDigits_suffix.
      * apply isSuffixOf_tail, isSuffixOf_refl.
    + destruct (_ && _); [|cbn [snd]; rewrite Hs; apply isSuffixOf_refl].
      destruct (_ >? _); cbn [snd scan_s].
      * apply isSuffixOf_tail, skipDigits_suffix.
      * apply isSuffixOf_tail, isSuffixOf_refl.
Qed.

Lemma scanLoop_suffix : forall fuel st st',
  scanLoop isDigit mulexp10 fuel st = Some st' ->
  isSuffixOf (scan_s st') (scan_s st).
Proof.
  induction fuel as [|fuel IH]; intros st st'; [discriminate|].
  cbn [scanLoop]. pose proof (scanStep_suffix st) as Hstep.
  destruct (scanStep isDigit mulexp10 st) as [again st1]. cbn [snd] in Hstep.
  destruct again.
  - intros H. apply (isSuffixOf_trans _ (scan_s st1)); [apply (IH _ _ H)|].
    exact Hstep.
  - intros H. inversion H; subst. exact Hstep.
Qed.

Lemma scanLoop_more_fuel : forall fuel st st',
  scanLoop isDigit mulexp10 fuel st = Some st' ->
  forall fuel', (fuel <= fuel')%nat ->
    scanLoop isDigit mulexp10 fuel' st = Some st'.
Proof.
  induction fuel as [|fuel IH]; intros st st'; [discriminate|].
  intros H [|fuel'] Hle; [lia|].
  cbn [scanLoop] in H |- *.
  destruct (scanStep isDigit mulexp10 st) as [again st1].
  destruct again; [|exact H].
  apply (IH _ _ H). lia.
Qed.

Lemma finishScan_suffix neg st :
  isSuffixOf (snd (finishScan isDigit mulexp10 neg st)) (scan_s st).
Proof.
  unfold finishScan.
  destruct (_ && digitsFound st); [|apply isSuffixOf_refl].
  match goal with
  | |- context [exponentDigits isDigit ?s 0] =>
      pose proof (exponentDigits_suffix s 0) as He;
      destruct (exponentDigits isDigit s 0) as [e s']
  end.
  cbn [snd] in He |- *.
  apply (isSuffixOf_trans _ _ _ He).
  destruct (_ || _).
  - apply (isSuffixOf_trans _ (advance (scan_s st)));
      apply isSuffixOf_advance.
  - apply isSuffixOf_advance.
Qed.

(** X12. [getDoubleValue] returns on every text: the digit loop ends within
    as many passes as code points remain plus one, and more fuel does not
    change its outcome.  The local pointer only moves forward: where it ends
    is a position of the text at or after its start. *)
Theorem getDoubleValue_returns (text : CharPointer) :
  (exists v s,
      getDoubleValue_scan isWhitespace isDigit mulexp10 text = Some (v, s)
      /\ isSuffixOf s text)
  /\ (forall st fuel,
        (List.length (scan_s st) < fuel)%nat ->
        scanLoop isDigit mulexp10 fuel st
        = scanLoop isDigit mulexp10 (S (List.length (scan_s st))) st)
  /\ (forall st, exists st',
        scanLoop isDigit mulexp10 (S (List.length (scan_s st))) st = Some st').
Proof.
  split; [|split].
  - unfold getDoubleValue_scan.
    pose proof (findEndOfWhitespace_isSuffix text) as Hw.
    pose proof (readSign_suffix (findEndOfWhitespace isWhitespace text)) as Hr.
    destruct (readSign _) as [neg s]. cbn [snd] in Hr.
    assert (Hs : isSuffixOf s text) by (eapply isSuffixOf_trans; eassumption).
    destruct (special s) as [v|]; [exists v, s; auto|].
    destruct (scanLoop_total isDigit mulexp10 (S (List.length s)) (initialScan s))
      as [st Hst]; [cbn; lia|].
    rewrite Hst.
    pose proof (scanLoop_suffix _ _ _ Hst) as Hl. cbn [initialScan scan_s] in Hl.
    pose proof (finishScan_suffix neg st) as Hf.
    destruct (finishScan isDigit mulexp10 neg st) as [v s'] eqn:E.
    cbn [snd] in Hf. exists v, s'. split; [reflexivity|].
    eapply isSuffixOf_trans; [exact Hf|].
    eapply isSuffixOf_trans; eassumption.
  - intros st fuel Hlt.
    destruct (scanLoop_total isDigit mulexp10 (S (List.length (scan_s st))) st)
      as [st' Hst]; [lia|].
    rewrite Hst. apply (scanLoop_more_fuel _ _ _ Hst). lia.
  - intros st. apply scanLoop_total. lia.
Qed.

(** ** getDoubleValue: whitespace, sign and leading zeros *)

Lemma findEndOfWhitespace_idem : forall text,
  findEndOfWhitespace isWhitespace (findEndOfWhitespace isWhitespace text)
  = findEndOfWhitespace isWhitespace text.
Proof.
  induction text as [|c text IH]; [reflexivity|].
  cbn [findEndOfWhitespace ptrIsWhitespace].
  destruct (isWhitespace c) eqn:Hc; [exact IH|].
  cbn [findEndOfWhitespace ptrIsWhitespace]. rewrite Hc. reflexivity.
Qed.

(** X13. Both parsers ignore leading whitespace: a run of whitespace put in
    front of a text changes neither result, and each parser gives on a text
    what it gives on the position [findEndOfWhitespace] returns for it. *)
Theorem parsers_skip_leading_whitespace (T : IntType)
    (ws text : CharPointer) :
  Forall (fun c => isWhitespace c = true) ws ->
  getDoubleValue isWhitespace isDigit mulexp10 (ws ++ text)
  = getDoubleValue isWhitespace isDigit mulexp10 text
  /\ getDoubleValue isWhitespace isDigit mulexp10
       (findEndOfWhitespace isWhitespace text)
     = getDoubleValue isWhitespace isDigit mulexp10 text
  /\ getIntValue isWhitespace T (findEndOfWhitespace isWhitespace text)
     = getIntValue isWhitespace T text.
Proof.
  intros Hws.
  unfold getDoubleValue, getDoubleValue_scan, getIntValue, getIntValue_scan.
  rewrite findEndOfWhitespace_app by exact Hws.
  rewrite findEndOfWhitespace_idem. auto.
Qed.

(** X14. On the path that scans digits the sign is applied to the result:
    for a position [s] that starts with neither whitespace nor a sign nor a
    special value, a text that reads ['-'] and then [s] yields the negation
    of what [s] yields, and one that reads ['+'] and then [s] yields the
    same as [s]. *)
Theorem getDoubleValue_sign (s textMinus textPlus : CharPointer) :
  findEndOfWhitespace isWhitespace s = s ->
  deref s <> 45 -> deref s <> 43 ->
  special s = None ->
  findEndOfWhitespace isWhitespace textMinus = 45 :: s ->
  findEndOfWhitespace isWhitespace textPlus = 43 :: s ->
  getDoubleValue isWhitespace isDigit mulexp10 textMinus
  = option_map dneg (getDoubleValue isWhitespace isDigit mulexp10 s)
  /\ getDoubleValue isWhitespace isDigit mulexp10 textPlus
     = getDoubleValue isWhitespace isDigit mulexp10 s.
Proof.
  intros Hs H45 H43 Hsp Hm Hp.
  assert (Hr : readSign s = (false, s)).
  { unfold readSign.
    destruct (Z.eqb_spec (deref s) 45); [contradiction|].
    destruct (Z.eqb_spec (deref s) 43); [contradiction|]. reflexivity. }
  unfold getDoubleValue, getDoubleValue_scan.
  rewrite Hs, Hm, Hp, Hr.
  change (readSign (45 :: s)) with (true, s).
  change (readSign (43 :: s)) with (false, s).
  cbv beta iota. rewrite Hsp.
  destruct (scanLoop isDigit mulexp10 (S (List.length s)) (initialScan s))
    as [st|]; [|split; reflexivity].
  split; [|reflexivity].
  unfold finishScan.
  repeat match goal with
         | |- context [let (_, _) := ?x in _] => destruct x
         end.
  reflexivity.
Qed.

(** X15. A zero in front of the digits does not change the value: when the
    text reads, after whitespace and sign, a ['0'] followed by a digit, the
    result is that of the text without this zero. *)
Theorem getDoubleValue_leading_zero (text text' t : CharPointer) (neg : bool) :
  readSign (findEndOfWhitespace isWhitespace text) = (neg, 48 :: t) ->
  readSign (findEndOfWhitespace isWhitespace text') = (neg, t) ->
  isDigit 48 = true ->
  ptrIsDigit isDigit t = true ->
  special t = None ->
  getDoubleValue_scan isWhitespace isDigit mulexp10 text
  = getDoubleValue_scan isWhitespace isDigit mulexp10 text'.
Proof.
  intros H1 H2 Hz Hd Hsp.
  unfold getDoubleValue_scan. rewrite H1, H2, Hsp.
  change (special (48 :: t)) with (@None double).
  cbn [List.length].
  replace (scanLoop isDigit mulexp10 (S (S (List.length t)))
             (initialScan (48 :: t)))
    with (scanLoop isDigit mulexp10 (S (List.length t)) (initialScan t));
    [reflexivity|].
  symmetry.
  change (scanLoop isDigit mulexp10 (S (S (List.length t)))
            (initialScan (48 :: t)))
    with (let (again, st') := scanStep isDigit mulexp10 (initialScan (48 :: t))
          in if again
             then scanLoop isDigit mulexp10 (S (List.length t)) st'
             else Some st').
  rewrite (scanStep_leading_zero isDigit mulexp10 (initialScan (48 :: t)) 48 t)
    by (reflexivity || exact Hz).
  cbv beta iota.
  cbn [initialScan result accumulator exponentAdjustment exponentAccumulator
       decPointIndex digit Z.eqb negb].
  destruct t as [|c t']; [discriminate Hd|].
  cbn [ptrIsDigit] in Hd.
  cbn [scanLoop].
  assert (Hstep :
    scanStep isDigit mulexp10
      (mkScan (c :: t') (pos_zero, pos_zero) (pos_zero, pos_zero) (0, 0)
              (-1, -1) 0 0 0 0 true)
    = scanStep isDigit mulexp10
        (mkScan (c :: t') (pos_zero, pos_zero) (pos_zero, pos_zero) (0, 0)
                (-1, -1) 0 0 0 0 false)).
  { unfold scanStep.
    cbn [scan_s ptrIsDigit getAndAdvance deref hd advance tl
         numSignificantDigits decPointIndex digit result accumulator
         exponentAdjustment exponentAccumulator].
    rewrite Hd. reflexivity. }
  rewrite Hstep. reflexivity.
Qed.

(** ** getDoubleValue: what follows the number *)

Section AfterTheNumber.

(** [c] is a code point that cannot continue a number, followed by [r1] in
    one text and by [r2] in another. *)
Variable c : juce_wchar.
Variables r1 r2 : CharPointer.
Hypothesis c_not_digit : isDigit c = false.
Hypothesis c_not_point : c <> 46.

Lemma skipDigits_app r : forall q,
  skipDigits isDigit (q ++ c :: r) = skipDigits isDigit q ++ c :: r.
Proof.
  induction q as [|x q IH].
  - cbn [app skipDigits ptrIsDigit]. rewrite c_not_digit. reflexivity.
  - cbn [app skipDigits ptrIsDigit]. destruct (isDigit x); [exact IH|].
    reflexivity.
Qed.

Lemma leadingDigits_app r : forall q,
  leadingDigits isDigit (q ++ c :: r) = leadingDigits isDigit q.
Proof.
  induction q as [|x q IH].
  - cbn [app leadingDigits]. rewrite c_not_digit. reflexivity.
  - cbn [app leadingDigits]. destruct (isDigit x); [rewrite IH|]; reflexivity.
Qed.

Lemma exponentDigits_app r : forall q e,
  fst (exponentDigits isDigit (q ++ c :: r) e)
  = fst (exponentDigits isDigit q e).
Proof.
  induction q as [|x q IH]; intros e.
  - cbn [app exponentDigits ptrIsDigit]. rewrite c_not_digit. reflexivity.
  - cbn [app exponentDigits ptrIsDigit]. destruct (isDigit x); [apply IH|].
    reflexivity.
Qed.

Lemma scanStep_rest st q :
  scan_s st = q ++ c :: r1 ->
  exists q',
    scan_s (snd (scanStep isDigit mulexp10 st)) = q' ++ c :: r1
    /\ scanStep isDigit mulexp10 (setPointer st (q ++ c :: r2))
       = (fst (scanStep isDigit mulexp10 st),
          setPointer (snd (scanStep isDigit mulexp10 st)) (q' ++ c :: r2)).
Proof.
  destruct st as [s res acc ea eacc dp d ld nsd found].
  cbn [scan_s]. intros ->.
  unfold scanStep, setPointer.
  cbn [scan_s result accumulator exponentAdjustment exponentAccumulator
       decPointIndex digit lastDigit numSignificantDigits digitsFound].
  destruct q as [|x q].
  - cbn [app ptrIsDigit deref hd]. rewrite c_not_digit.
    destruct (Z.eqb_spec c 46); [contradiction|]. rewrite andb_false_r.
    exists []. split; reflexivity.
  - cbn [app ptrIsDigit getAndAdvance deref hd advance tl].
    destruct (isDigit x).
    + destruct ((nsd =? 0) && (wrap32 (x - 48) =? 0)).
      * exists q. split; reflexivity.
      * destruct (incr nsd >? maxSignificantDigits).
        -- rewrite !skipDigitsAdjusting_spec, !skipDigits_app,
             !leadingDigits_app.
           exists (skipDigits isDigit q). split; reflexivity.
        -- exists q. split; reflexivity.
    + destruct ((dp =? 0) && (x =? 46)).
      * destruct (nsd >? maxSignificantDigits).
        -- rewrite !skipDigits_app.
           exists (skipDigits isDigit q). split; reflexivity.
        -- exists q. split; reflexivity.
      * exists (x :: q). split; reflexivity.
Qed.

Lemma scanLoop_rest : forall fuel st q st',
  scan_s st = q ++ c :: r1 ->
  scanLoop isDigit mulexp10 fuel st = Some st' ->
  exists q',
    scan_s st' = q' ++ c :: r1
    /\ scanLoop isDigit mulexp10 fuel (setPointer st (q ++ c :: r2))
       = Some (setPointer st' (q' ++ c :: r2)).
Proof.
  induction fuel as [|fuel IH]; intros st q st' Hs; [discriminate|].
  cbn [scanLoop].
  destruct (scanStep_rest st q Hs) as (q1 & Hq1 & Heq).
  rewrite Heq.
  destruct (scanStep isDigit mulexp10 st) as [again st1].
  cbn [fst snd] in *.
  destruct again.
  - intros H. apply (IH st1 q1 st' Hq1 H).
  - intros H. inversion H; subst. exists q1. split; [exact Hq1 | reflexivity].
Qed.

Hypothesis c_not_e : c <> 101.
Hypothesis c_not_E : c <> 69.
Hypothesis c_not_minus : c <> 45.
Hypothesis c_not_plus : c <> 43.

Lemma finishScan_rest neg st q :
  scan_s st = q ++ c :: r1 ->
  fst (finishScan isDigit mulexp10 neg (setPointer st (q ++ c :: r2)))
  = fst (finishScan isDigit mulexp10 neg st).
Proof.
  destruct st as [s res acc ea eacc dp d ld nsd found].
  cbn [scan_s]. intros ->.
  unfold finishScan, setPointer.
  cbn [scan_s result accumulator exponentAdjustment exponentAccumulator
       decPointIndex digit lastDigit numSignificantDigits digitsFound].
  destruct q as [|x q].
  - cbn [app deref hd].
    destruct (Z.eqb_spec c 101); [contradiction|].
    destruct (Z.eqb_spec c 69); [contradiction|].
    cbn [orb andb]. reflexivity.
  - cbn [app deref hd advance tl].
    destruct (((x =? 101) || (x =? 69)) && found); [|reflexivity].
    destruct q as [|y q].
    + cbn [app deref hd].
      destruct (Z.eqb_spec c 45); [contradiction|].
      destruct (Z.eqb_spec c 43); [contradiction|].
      cbn [orb exponentDigits ptrIsDigit]. rewrite c_not_digit. reflexivity.
    + cbn [app deref hd advance tl].
      destruct ((y =? 45) || (y =? 43)).
      * pose proof (exponentDigits_app r1 q 0) as E1.
        pose proof (exponentDigits_app r2 q 0) as E2.
        destruct (exponentDigits isDigit (q ++ c :: r1) 0) as [e1 s1].
        destruct (exponentDigits isDigit (q ++ c :: r2) 0) as [e2 s2].
        cbn [fst] in E1, E2. rewrite E1, E2. reflexivity.
      * pose proof (exponentDigits_app r1 (y :: q) 0) as E1.
        pose proof (exponentDigits_app r2 (y :: q) 0) as E2.
        cbn [app] in E1, E2.
        destruct (exponentDigits isDigit (y :: q ++ c :: r1) 0) as [e1 s1].
        destruct (exponentDigits isDigit (y :: q ++ c :: r2) 0) as [e2 s2].
        cbn [fst] in E1, E2. rewrite E1, E2. reflexivity.
Qed.

(** X16. What follows the number does not influence the value: when two
    texts agree, after whitespace and sign, up to and including a code point
    that is neither a digit nor one of [. e E + -], and neither starts with a
    special value, [getDoubleValue] returns the same for both. *)
Theorem getDoubleValue_ignores_rest (text1 text2 q : CharPointer)
    (neg : bool) :
  readSign (findEndOfWhitespace isWhitespace text1) = (neg, q ++ c :: r1) ->
  readSign (findEndOfWhitespace isWhitespace text2) = (neg, q ++ c :: r2) ->
  special (q ++ c :: r1) = None ->
  special (q ++ c :: r2) = None ->
  getDoubleValue isWhitespace isDigit mulexp10 text1
  = getDoubleValue isWhitespace isDigit mulexp10 text2.
Proof.
  intros H1 H2 Hsp1 Hsp2.
  unfold getDoubleValue, getDoubleValue_scan.
  rewrite H1, H2, Hsp1, Hsp2.
  set (s1 := q ++ c :: r1). set (s2 := q ++ c :: r2).
  destruct (scanLoop_total isDigit mulexp10 (S (List.length s1)) (initialScan s1))
    as [st1 Hst1]; [cbn; lia|].
  destruct (scanLoop_total isDigit mulexp10 (S (List.length s2)) (initialScan s2))
    as [st2 Hst2]; [cbn; lia|].
  rewrite Hst1, Hst2. cbn [option_map]. f_equal.
  set (fuel := (S (List.length s1) + S (List.length s2))%nat).
  pose proof (scanLoop_more_fuel _ _ _ Hst1 fuel ltac:(lia)) as Hf1.
  pose proof (scanLoop_more_fuel _ _ _ Hst2 fuel ltac:(lia)) as Hf2.
  destruct (scanLoop_rest fuel (initialScan s1) q st1 eq_refl Hf1)
    as (q' & Hq' & Hrest).
  change (setPointer (initialScan s1) (q ++ c :: r2)) with (initialScan s2)
    in Hrest.
  rewrite Hf2 in Hrest. inversion Hrest; subst st2.
  symmetry. apply finishScan_rest. exact Hq'.
Qed.

End AfterTheNumber.

(** ** indexOf: what a result means *)

Lemma matchesAt_fits h needle i :
  matchesAt h needle i -> (i <= List.length h)%nat ->
  (i + List.length needle <= List.length h)%nat.
Proof.
  unfold matchesAt. intros H Hi.
  assert (Hl : List.length (firstn (List.length needle) (skipn i h))
               = List.length needle) by (rewrite H; reflexivity).
  rewrite length_firstn, length_skipn in Hl. lia.
Qed.

Lemma indexOf_loop_sound needle :
  validText needle -> Z.of_nat (List.length needle) < 2 ^ 31 ->
  forall h index,
    validText h -> 0 <= index ->
    index + Z.of_nat (List.length h) < 2 ^ 31 ->
    indexOf_loop h needle (Z.of_nat (List.length needle)) index = -1
    \/ exists i,
         indexOf_loop h needle (Z.of_nat (List.length needle)) index
         = index + Z.of_nat i
         /\ (i <= List.length h)%nat
         /\ matchesAt h needle i.
Proof.
  intros Hn Hlen.
  induction h as [|x h IH]; intros index Hh Hidx Hb.
  - pose proof (compareUpTo_prefix needle [] Hn Hh Hlen) as Hp.
    cbn [indexOf_loop getAndAdvance deref hd fst].
    destruct (Z.eqb_spec (compareUpTo [] needle (Z.of_nat (List.length needle))) 0)
      as [E|E]; [|left; reflexivity].
    right. exists O. split; [lia|]. split; [reflexivity|]. apply Hp, E.
  - pose proof (compareUpTo_prefix needle (x :: h) Hn Hh Hlen) as Hp.
    inversion Hh as [|? ? Hx Hh']; subst. unfold validCodePoint in Hx.
    cbn [indexOf_loop getAndAdvance deref hd fst].
    destruct (Z.eqb_spec (compareUpTo (x :: h) needle
                            (Z.of_nat (List.length needle))) 0) as [E|E].
    + right. exists O. split; [lia|]. split; [cbn; lia|]. apply Hp, E.
    + destruct (Z.eqb_spec x 0); [lia|].
      cbn [List.length] in Hb.
      assert (Hincr : incr index = index + 1)
        by (unfold incr; apply wrap32_small; lia).
      rewrite Hincr.
      destruct (IH (index + 1) Hh' ltac:(lia) ltac:(lia))
        as [Hm|(i & Hi & Hle & Hmatch)]; [left; exact Hm|].
      right. exists (S i). split; [lia|]. split; [cbn; lia | exact Hmatch].
Qed.

(** X17. A result of [indexOf] other than -1 is an offset at which the needle
    really occurs and fits inside the haystack; a needle longer than the
    haystack is never found, and a text is found in itself at offset 0. *)
Theorem indexOf_sound (haystack needle : CharPointer) :
  validText haystack -> validText needle ->
  Z.of_nat (List.length haystack) < 2 ^ 31 ->
  Z.of_nat (List.length needle) < 2 ^ 31 ->
  (indexOf haystack needle = -1
   \/ exists i,
        indexOf haystack needle = Z.of_nat i
        /\ matchesAt haystack needle i
        /\ (i + List.length needle <= List.length haystack)%nat)
  /\ ((List.length haystack < List.length needle)%nat ->
      indexOf haystack needle = -1)
  /\ indexOf haystack haystack = 0.
Proof.
  intros Hh Hn Hlh Hln.
  assert (Hneedle : wrap32 (length_ needle) = Z.of_nat (List.length needle)).
  { rewrite length_valid by exact Hn. apply wrap32_small. lia. }
  assert (Hdisj :
    indexOf haystack needle = -1
    \/ exists i,
         indexOf haystack needle = Z.of_nat i
         /\ matchesAt haystack needle i
         /\ (i + List.length needle <= List.length haystack)%nat).
  { unfold indexOf. rewrite Hneedle.
    destruct (indexOf_loop_sound needle Hn Hln haystack 0 Hh
                ltac:(lia) ltac:(lia)) as [Hm|(i & Hi & Hle & Hmatch)];
      [left; exact Hm|].
    right. exists i. split; [lia|]. split; [exact Hmatch|].
    apply matchesAt_fits; assumption. }
  split; [exact Hdisj|]. split.
  - intros Hlt. destruct Hdisj as [Hm|(i & _ & _ & Hfit)]; [exact Hm | lia].
  - unfold indexOf.
    assert (Hself : wrap32 (length_ haystack) = Z.of_nat (List.length haystack)).
    { rewrite length_valid by exact Hh. apply wrap32_small. lia. }
    rewrite Hself.
    assert (Hc : compareUpTo haystack haystack
                   (Z.of_nat (List.length haystack)) = 0).
    { apply (compareUpTo_prefix haystack haystack Hh Hh Hlh).
      apply firstn_all. }
    destruct haystack; cbn [indexOf_loop]; rewrite Hc; reflexivity.
Qed.

(** ** copying and comparing *)

Lemma textBeforeTerminator_app_zero l r :
  ~ In 0 l -> textBeforeTerminator (l ++ 0 :: r) = l.
Proof.
  induction l as [|x l IH]; intros Hnot; [reflexivity|].
  cbn [app textBeforeTerminator].
  destruct (Z.eqb_spec x 0) as [->|Hx]; [exfalso; apply Hnot; left; reflexivity|].
  rewrite IH; [reflexivity|]. intros H. apply Hnot. right. exact H.
Qed.

Lemma compare_copy : forall s, compare (textBeforeTerminator s ++ [0]) s = 0.
Proof.
  induction s as [|x s IH]; [reflexivity|].
  cbn [textBeforeTerminator].
  destruct (Z.eqb_spec x 0) as [->|Hx]; [reflexivity|].
  cbn [app compare deref hd advance tl].
  rewrite Z.sub_diag. change (wrap32 0) with 0. cbn [Z.eqb negb].
  destruct (wrap32 x =? 0); [reflexivity | exact IH].
Qed.

(** X18. What [copyAndAdvance] writes, read back as a null-terminated text,
    is the source text: the copy holds the code points of the source before
    its terminator, copying the copy gives the copy again, and [compare]
    finds the copy equal to the source. *)
Theorem copyAndAdvance_round_trip (src : CharPointer) :
  textBeforeTerminator (copyAndAdvance src) = textBeforeTerminator src
  /\ copyAndAdvance (copyAndAdvance src) = copyAndAdvance src
  /\ compare (copyAndAdvance src) src = 0.
Proof.
  assert (H : copyAndAdvance src = textBeforeTerminator src ++ [0])
    by (unfold copyAndAdvance; rewrite copyAndAdvance_loop_spec; reflexivity).
  assert (Hback : textBeforeTerminator (copyAndAdvance src)
                  = textBeforeTerminator src).
  { rewrite H. apply textBeforeTerminator_app_zero,
                 textBeforeTerminator_no_zero. }
  split; [exact Hback|]. split.
  - unfold copyAndAdvance at 1. rewrite copyAndAdvance_loop_spec.
    cbn [app]. rewrite Hback. symmetry. exact H.
  - rewrite H. apply compare_copy.
Qed.

(** ** getDoubleValue: digits that are all zero *)

Lemma iter_incr_small : forall m k,
  0 <= k -> k + Z.of_nat m < 2 ^ 31 -> Nat.iter m incr k = k + Z.of_nat m.
Proof.
  induction m as [|m IH]; intros k Hk Hb; [cbn; lia|].
  rewrite Nat.iter_succ, IH by lia.
  unfold incr. rewrite wrap32_small; lia.
Qed.

Section Zeros.

Hypothesis zero_is_digit : isDigit 48 = true.

Lemma scanStep_zero s dp k d ld found :
  scanStep isDigit mulexp10 (zeroScan (48 :: s) dp k d ld found)
  = (true, zeroScan s dp (if negb (dp =? 0) then incr k else k) 0 d true).
Proof.
  rewrite (scanStep_leading_zero isDigit mulexp10 _ 48 s)
    by (reflexivity || exact zero_is_digit).
  unfold zeroScan.
  cbn [result accumulator exponentAdjustment exponentAccumulator
       decPointIndex digit fst snd].
  destruct (negb (dp =? 0)); reflexivity.
Qed.

Lemma scanLoop_zeros s dp fuel : forall n k d ld found,
  exists d' ld' found',
    scanLoop isDigit mulexp10 (n + fuel)
      (zeroScan (repeat 48 n ++ s) dp k d ld found)
    = scanLoop isDigit mulexp10 fuel
        (zeroScan s dp (if negb (dp =? 0) then Nat.iter n incr k else k)
                  d' ld' found').
Proof.
  induction n as [|n IH]; intros k d ld found.
  - exists d, ld, found. cbn [repeat app Nat.add Nat.iter].
    destruct (negb (dp =? 0)); reflexivity.
  - cbn [repeat app Nat.add scanLoop]. rewrite scanStep_zero.
    destruct (IH (if negb (dp =? 0) then incr k else k) 0 d true)
      as (d' & ld' & found' & Heq).
    exists d', ld', found'. rewrite Heq.
    destruct (negb (dp =? 0)); [|reflexivity].
    rewrite Nat.iter_succ, iter_incr_shift. reflexivity.
Qed.

Hypothesis mulexp10_zero_m1 : mulexp10 pos_zero (-1) = pos_zero.
Hypothesis mulexp10_zero_0 : mulexp10 pos_zero 0 = pos_zero.

Lemma finishScan_zero neg s dp k d ld found :
  dp = 0 \/ dp = 1 ->
  deref s <> 101 -> deref s <> 69 ->
  (dp = 1 -> mulexp10 pos_zero (wrap32 (0 - k)) = pos_zero) ->
  finishScan isDigit mulexp10 neg (zeroScan s dp k d ld found)
  = (S754_zero neg, s).
Proof.
  intros Hdp He HE Hk. unfold finishScan, zeroScan.
  cbn [decPointIndex result accumulator exponentAccumulator
       exponentAdjustment scan_s digitsFound fst snd].
  destruct (Z.eqb_spec (deref s) 101); [contradiction|].
  destruct (Z.eqb_spec (deref s) 69); [contradiction|].
  cbn [orb andb]. change (wrap32 (0 + 0)) with 0.
  rewrite !mulexp10_zero_m1. change (dadd pos_zero pos_zero) with pos_zero.
  rewrite !mulexp10_zero_0.
  destruct Hdp as [-> | ->]; cbn [Z.eqb negb].
  - destruct neg; reflexivity.
  - rewrite (Hk eq_refl). destruct neg; reflexivity.
Qed.

(** X19. Digits that are all zeros give zero with the sign that was read:
    a run of zeros, or zeros with a decimal point among them, followed by a
    code point that is neither a digit nor an exponent marker (nor, without a
    decimal point in the zeros, a decimal point). *)
Theorem getDoubleValue_zeros (text rest : CharPointer) (neg : bool)
    (n m : nat) :
  mulexp10 pos_zero (- Z.of_nat m) = pos_zero ->
  Z.of_nat m < 2 ^ 31 ->
  isDigit 46 = false ->
  ptrIsDigit isDigit rest = false ->
  deref rest <> 101 -> deref rest <> 69 ->
  (readSign (findEndOfWhitespace isWhitespace text)
   = (neg, repeat 48 n ++ rest) ->
   deref rest <> 46 ->
   special (repeat 48 n ++ rest) = None ->
   getDoubleValue isWhitespace isDigit mulexp10 text = Some (S754_zero neg))
  /\ (readSign (findEndOfWhitespace isWhitespace text)
      = (neg, repeat 48 n ++ 46 :: repeat 48 m ++ rest) ->
      getDoubleValue isWhitespace isDigit mulexp10 text
      = Some (S754_zero neg)).
Proof.
  intros Hk Hm Hpoint Hrest He HE. split.
  - intros Hsign Hdot Hsp.
    unfold getDoubleValue, getDoubleValue_scan. rewrite Hsign, Hsp.
    destruct (scanLoop_zeros rest 0 1 n 0 0 0 false)
      as (d' & ld' & found' & Hrun).
    cbn [Z.eqb negb] in Hrun.
    assert (Hloop :
      scanLoop isDigit mulexp10 (n + 1) (initialScan (repeat 48 n ++ rest))
      = Some (zeroScan rest 0 0 d' ld' found')).
    { change (initialScan (repeat 48 n ++ rest))
        with (zeroScan (repeat 48 n ++ rest) 0 0 0 0 false).
      rewrite Hrun. cbn [scanLoop].
      rewrite scanStep_break; [reflexivity | exact Hrest |].
      cbn [zeroScan scan_s decPointIndex].
      destruct (Z.eqb_spec (deref rest) 46); [contradiction | reflexivity]. }
    rewrite (scanLoop_more_fuel _ _ _ Hloop)
      by (rewrite length_app, repeat_length; lia).
    rewrite finishScan_zero; auto; discriminate.
  - intros Hsign.
    unfold getDoubleValue, getDoubleValue_scan. rewrite Hsign.
    assert (Hsp : special (repeat 48 n ++ 46 :: repeat 48 m ++ rest) = None)
      by (destruct n; reflexivity).
    rewrite Hsp.
    destruct (scanLoop_zeros (46 :: repeat 48 m ++ rest) 0 (1 + (m + 1))
                n 0 0 0 false) as (d1 & ld1 & found1 & Hrun1).
    cbn [Z.eqb negb] in Hrun1.
    destruct (scanLoop_zeros rest 1 1 m 0 d1 ld1 found1)
      as (d2 & ld2 & found2 & Hrun2).
    cbn [Z.eqb negb] in Hrun2.
    assert (Hloop :
      scanLoop isDigit mulexp10 (n + (1 + (m + 1)))
        (initialScan (repeat 48 n ++ 46 :: repeat 48 m ++ rest))
      = Some (zeroScan rest 1 (Nat.iter m incr 0) d2 ld2 found2)).
    { change (initialScan (repeat 48 n ++ 46 :: repeat 48 m ++ rest))
        with (zeroScan (repeat 48 n ++ 46 :: repeat 48 m ++ rest)
                       0 0 0 0 false).
      rewrite Hrun1. cbn [Nat.add scanLoop].
      unfold scanStep at 1.
      cbn [zeroScan scan_s decPointIndex numSignificantDigits ptrIsDigit
           deref hd advance tl result accumulator exponentAdjustment
           exponentAccumulator digit lastDigit digitsFound].
      rewrite Hpoint. cbn [Z.eqb Pos.eqb andb].
      change (0 >? maxSignificantDigits) with false. cbv beta iota.
      fold (zeroScan (repeat 48 m ++ rest) 1 0 d1 ld1 found1).
      rewrite Hrun2. cbn [scanLoop].
      rewrite scanStep_break; [reflexivity | exact Hrest | reflexivity]. }
    rewrite (scanLoop_more_fuel _ _ _ Hloop)
      by (rewrite length_app, repeat_length; cbn [List.length];
          rewrite length_app, repeat_length; lia).
    rewrite finishScan_zero; auto.
    intros _. rewrite iter_incr_small by lia.
    rewrite wrap32_small by lia. exact Hk.
Qed.

End Zeros.

End MoreProperties.

(** * Instances of the further properties *)

Lemma copyAndAdvance_spec_witness :
  copyAndAdvance (chars "abc") = withTerminator (chars "abc").
Proof.
  apply (proj2 (proj2 (copyAndAdvance_spec (chars "abc")))).
  repeat constructor; reflexivity.
Defined.

Lemma copyAndAdvanceUpToNumChars_spec_witness :
  copyAndAdvanceUpToNumChars (chars "abc") 2 = chars "ab".
Proof.
  apply (proj1 (copyAndAdvanceUpToNumChars_spec (chars "abc") 2
                  ltac:(lia))).
Defined.

Lemma copyAndAdvanceUpToBytes_enough_witness :
  copyAndAdvanceUpToBytes utf8BytesRequiredFor (chars "abc") 10
  = (copyAndAdvance (chars "abc"), 4).
Proof.
  apply (copyAndAdvanceUpToBytes_enough utf8BytesRequiredFor (chars "abc") 10).
  - intros c. unfold utf8BytesRequiredFor. zcases; lia.
  - repeat constructor; reflexivity.
  - simpl. lia.
Defined.

Lemma compare_lexicographic_witness :
  compare (chars "ab") (chars "abc") = -1.
Proof.
  apply (proj1 (compare_lexicographic (chars "ab") (chars "abc") (chars "b")
                  ltac:(repeat constructor; reflexivity)
                  ltac:(repeat constructor; reflexivity)
                  ltac:(repeat constructor; reflexivity))).
Defined.

Lemma compareUpTo_prefixes_witness :
  compareUpTo (chars "abc") (chars "abd") 2 = compare (chars "ab") (chars "ab").
Proof.
  apply (proj1 (compareUpTo_prefixes (chars "abc") (chars "abd") 2
                  ltac:(simpl; lia))).
Defined.

Lemma compareIgnoreCase_fold_witness :
  compareIgnoreCase asciiToUpperCase (chars "Hello") (chars "hELLO") = 0.
Proof.
  apply (proj1 (proj2 (proj2 (compareIgnoreCase_fold asciiToUpperCase
                                (chars "Hello") (chars "hELLO") 0)))).
  reflexivity.
Defined.

Lemma indexOfChar_spec_witness : indexOfChar (chars "hello") 108 = 2.
Proof.
  apply (proj1 (indexOfChar_spec (chars "hello") 108 ltac:(simpl; lia))).
Defined.

Lemma indexOfCharIgnoreCase_spec_witness :
  indexOfCharIgnoreCase asciiToLowerCase (chars "HeLLo") 108 = 2.
Proof.
  apply (proj1 (indexOfCharIgnoreCase_spec asciiToLowerCase (chars "HeLLo") 108
                  ltac:(simpl; lia))).
Defined.

Lemma indexOf_single_witness :
  indexOf (chars "hello") [108] = indexOfChar (chars "hello") 108.
Proof.
  apply (indexOf_single (chars "hello") 108).
  - repeat constructor; reflexivity.
  - split; reflexivity.
Defined.

Lemma getIntValue_exact_witness :
  getIntValue asciiIsWhitespace int32 (chars " -2147483648") = -2147483648.
Proof.
  assert (Hds : Forall isAsciiDigit (chars "2147483648"))
    by (repeat constructor; discriminate).
  assert (Hrest : ~ isAsciiDigit (deref []))
    by (unfold isAsciiDigit; simpl; lia).
  apply (getIntValue_exact asciiIsWhitespace int32 (chars " -2147483648")
           (chars "2147483648") [] eq_refl Hds Hrest).
  vm_compute. split; discriminate.
Defined.

Lemma getDoubleValue_returns_witness :
  scanLoop asciiIsDigit mulexp10_pow 50 (initialScan (chars "12.5"))
  = scanLoop asciiIsDigit mulexp10_pow 5 (initialScan (chars "12.5")).
Proof.
  apply (proj1 (proj2 (getDoubleValue_returns asciiIsWhitespace asciiIsDigit
                         mulexp10_pow []))
           (initialScan (chars "12.5")) 50%nat).
  simpl. lia.
Defined.

Lemma parsers_skip_leading_whitespace_witness :
  getDoubleValue asciiIsWhitespace asciiIsDigit mulexp10_pow (chars "  1.5")
  = getDoubleValue asciiIsWhitespace asciiIsDigit mulexp10_pow (chars "1.5").
Proof.
  apply (proj1 (parsers_skip_leading_whitespace asciiIsWhitespace asciiIsDigit
                  mulexp10_pow int32 [32; 32] (chars "1.5")
                  ltac:(repeat constructor))).
Defined.

Lemma getDoubleValue_sign_witness :
  getDoubleValue asciiIsWhitespace asciiIsDigit mulexp10_pow (chars " -2.5")
  = option_map dneg
      (getDoubleValue asciiIsWhitespace asciiIsDigit mulexp10_pow (chars "2.5")).
Proof.
  apply (proj1 (getDoubleValue_sign asciiIsWhitespace asciiIsDigit mulexp10_pow
                  (chars "2.5") (chars " -2.5") (chars "+2.5")
                  eq_refl ltac:(simpl; lia) ltac:(simpl; lia)
                  eq_refl eq_refl eq_refl)).
Defined.

Lemma getDoubleValue_leading_zero_witness :
  getDoubleValue_scan asciiIsWhitespace asciiIsDigit mulexp10_pow (chars "-007")
  = getDoubleValue_scan asciiIsWhitespace asciiIsDigit mulexp10_pow
      (chars "-07").
Proof.
  apply (getDoubleValue_leading_zero asciiIsWhitespace asciiIsDigit
           mulexp10_pow (chars "-007") (chars "-07") (chars "07") true);
    reflexivity.
Defined.

Lemma getDoubleValue_ignores_rest_witness :
  getDoubleValue asciiIsWhitespace asciiIsDigit mulexp10_pow
    (chars "12.5 apples")
  = getDoubleValue asciiIsWhitespace asciiIsDigit mulexp10_pow
      (chars "12.5 pears").
Proof.
  apply (getDoubleValue_ignores_rest asciiIsWhitespace asciiIsDigit
           mulexp10_pow 32 (chars "apples") (chars "pears")
           eq_refl ltac:(lia) ltac:(lia) ltac:(lia) ltac:(lia) ltac:(lia)
           (chars "12.5 apples") (chars "12.5 pears") (chars "12.5") false);
    reflexivity.
Defined.

Lemma indexOf_sound_witness : indexOf (chars "abc") (chars "abcd") = -1.
Proof.
  apply (proj1 (proj2 (indexOf_sound (chars "abc") (chars "abcd")
                         ltac:(repeat constructor; reflexivity)
                         ltac:(repeat constructor; reflexivity)
                         ltac:(simpl; lia) ltac:(simpl; lia)))).
  simpl. lia.
Defined.

Lemma getDoubleValue_zeros_witness :
  getDoubleValue asciiIsWhitespace asciiIsDigit mulexp10_pow (chars "-0.00x")
  = Some neg_zero.
Proof.
  apply (proj2 (getDoubleValue_zeros asciiIsWhitespace asciiIsDigit
                  mulexp10_pow eq_refl eq_refl eq_refl
                  (chars "-0.00x") (chars "x") true 1%nat 2%nat
                  eq_refl ltac:(simpl; lia) eq_refl eq_refl
                  ltac:(simpl; lia) ltac:(simpl; lia))).
  reflexivity.
Defined.

(** * The significant-digit cap of getDoubleValue *)

Section DigitCap.

Variable isWhitespace : juce_wchar -> bool.
Variable isDigit : juce_wchar -> bool.
Variable mulexp10 : double -> Z -> double.

Lemma incr_range x : - 2 ^ 31 <= incr x < 2 ^ 31.
Proof.
  unfold incr, wrap32, wrap.
  change (2 ^ (32 - 1)) with 2147483648.
  change (2 ^ 32) with 4294967296.
  change (2 ^ 31) with 2147483648.
  pose proof (Z.mod_pos_bound (x + 1 + 2147483648) 4294967296). lia.
Qed.

Lemma skipDigits_run ds rest :
  Forall (fun c => isDigit c = true) ds ->
  ptrIsDigit isDigit rest = false ->
  skipDigits isDigit (ds ++ rest) = rest
  /\ leadingDigits isDigit (ds ++ rest) = List.length ds.
Proof.
  intros Hds Hrest. induction Hds as [|c ds Hc _ [IH1 IH2]].
  - cbn [app List.length]. destruct rest as [|r rest]; [split; reflexivity|].
    cbn [ptrIsDigit] in Hrest.
    cbn [skipDigits leadingDigits ptrIsDigit]. rewrite Hrest.
    split; reflexivity.
  - cbn [app skipDigits leadingDigits ptrIsDigit List.length].
    rewrite Hc, IH2. split; [exact IH1 | reflexivity].
Qed.

Lemma last_app_nonempty (a b : list juce_wchar) d :
  b <> [] -> last (a ++ b) d = last b d.
Proof.
  intros Hb. induction a as [|x a IH]; [reflexivity|].
  cbn [app]. rewrite <- IH.
  destruct (a ++ b) eqn:E; [|reflexivity].
  apply app_eq_nil in E. destruct E as [_ E]. contradiction.
Qed.

Lemma significantDigits_app a b :
  significantDigits (a ++ b)
  = if (significantDigits a =? 0)%nat then significantDigits b
    else (significantDigits a + List.length b)%nat.
Proof.
  unfold significantDigits.
  induction a as [|c a IH]; [reflexivity|].
  cbn [app dropLeadingZeros].
  destruct (digitValue c =? 0); [exact IH|].
  cbn [List.length Nat.eqb]. rewrite length_app. reflexivity.
Qed.

(** A digit within the budget: the pass goes round again with the pointer
    one further, whatever follows the digit. *)
Lemma step_digit st c :
  isDigit c = true ->
  0 <= numSignificantDigits st < 17 ->
  exists st',
    (forall q, scanStep isDigit mulexp10 (setPointer st (c :: q))
               = (true, setPointer st' q))
    /\ decPointIndex st' = decPointIndex st
    /\ digit st' = digitValue c
    /\ numSignificantDigits st'
       = (if (numSignificantDigits st =? 0) && (digitValue c =? 0) then 0
          else numSignificantDigits st + 1)
    /\ exponentAdjustment st'
       = (if negb (decPointIndex st =? 0)
          then (fst (exponentAdjustment st), incr (snd (exponentAdjustment st)))
          else exponentAdjustment st).
Proof.
  intros Hd Hn.
  destruct st as [s res acc ea eacc dp d ld nsd found].
  cbn [numSignificantDigits decPointIndex exponentAdjustment] in *.
  assert (Hincr : incr nsd = nsd + 1)
    by (unfold incr; apply wrap32_small; lia).
  assert (Hgt : (nsd + 1 >? maxSignificantDigits) = false).
  { unfold maxSignificantDigits. rewrite Z.gtb_ltb. apply Z.ltb_ge. lia. }
  exists (snd (scanStep isDigit mulexp10
                 (setPointer (mkScan s res acc ea eacc dp d ld nsd found) [c]))).
  unfold scanStep, setPointer, digitValue.
  cbn [scan_s result accumulator exponentAdjustment exponentAccumulator
       decPointIndex digit lastDigit numSignificantDigits digitsFound
       ptrIsDigit getAndAdvance deref hd advance tl].
  rewrite Hd, Hincr, Hgt.
  destruct ((nsd =? 0) && (wrap32 (c - 48) =? 0)) eqn:E;
    cbn [snd scan_s result accumulator exponentAdjustment exponentAccumulator
         decPointIndex digit lastDigit numSignificantDigits digitsFound];
    repeat split; try reflexivity.
  apply andb_prop in E. destruct E as [E _]. apply Z.eqb_eq in E. exact E.
Qed.

(** The decimal point, met for the first time within the budget. *)
Lemma step_point st :
  isDigit 46 = false ->
  decPointIndex st = 0 ->
  numSignificantDigits st <= 17 ->
  exists st',
    (forall q, scanStep isDigit mulexp10 (setPointer st (46 :: q))
               = (true, setPointer st' q))
    /\ decPointIndex st' = 1
    /\ digit st' = digit st
    /\ numSignificantDigits st' = numSignificantDigits st
    /\ exponentAdjustment st' = exponentAdjustment st.
Proof.
  intros Hp Hdp Hn.
  destruct st as [s res acc ea eacc dp d ld nsd found].
  cbn [numSignificantDigits decPointIndex] in *. subst dp.
  assert (Hgt : (nsd >? maxSignificantDigits) = false).
  { unfold maxSignificantDigits. rewrite Z.gtb_ltb. apply Z.ltb_ge. lia. }
  exists (mkScan [] res acc ea eacc 1 d ld nsd found).
  unfold scanStep, setPointer.
  cbn [scan_s result accumulator exponentAdjustment exponentAccumulator
       decPointIndex digit lastDigit numSignificantDigits digitsFound
       ptrIsDigit getAndAdvance deref hd advance tl].
  rewrite Hp, Hgt. repeat split; reflexivity.
Qed.

(** A run of digits within the budget. *)
Lemma run_digits : forall ds st,
  Forall (fun c => isDigit c = true) ds ->
  0 <= numSignificantDigits st ->
  numSignificantDigits st
  + (if numSignificantDigits st =? 0 then Z.of_nat (significantDigits ds)
     else Z.of_nat (List.length ds)) <= 17 ->
  - 2 ^ 31 <= snd (exponentAdjustment st) < 2 ^ 31 ->
  exists st',
    (forall more fuel,
        scanLoop isDigit mulexp10 (List.length ds + fuel)
          (setPointer st (ds ++ more))
        = scanLoop isDigit mulexp10 fuel (setPointer st' more))
    /\ decPointIndex st' = decPointIndex st
    /\ numSignificantDigits st'
       = numSignificantDigits st
         + (if numSignificantDigits st =? 0
            then Z.of_nat (significantDigits ds)
            else Z.of_nat (List.length ds))
    /\ digit st' = match ds with
                   | [] => digit st
                   | _ :: _ => digitValue (last ds 0)
                   end
    /\ (decPointIndex st = 0 -> exponentAdjustment st' = exponentAdjustment st)
    /\ - 2 ^ 31 <= snd (exponentAdjustment st') < 2 ^ 31.
Proof.
  induction ds as [|c ds IH]; intros st Hds Hn Hcap Hea.
  - exists st. split.
    + intros more fuel. destruct st; reflexivity.
    + repeat split; try reflexivity; try lia.
      destruct (numSignificantDigits st =? 0); cbn; lia.
  - inversion Hds as [|? ? Hc Hds']; subst.
    assert (Hlt : 0 <= numSignificantDigits st < 17).
    { destruct (Z.eqb_spec (numSignificantDigits st) 0);
        cbn [List.length] in Hcap; lia. }
    destruct (step_digit st c Hc Hlt) as (st1 & Hstep & Hdp1 & Hd1 & Hn1 & Hea1).
    assert (Hsig : significantDigits (c :: ds)
                   = if digitValue c =? 0 then significantDigits ds
                     else S (List.length ds)).
    { unfold significantDigits. cbn [dropLeadingZeros].
      destruct (digitValue c =? 0); reflexivity. }
    assert (Hcount :
      numSignificantDigits st1
      + (if numSignificantDigits st1 =? 0 then Z.of_nat (significantDigits ds)
         else Z.of_nat (List.length ds))
      = numSignificantDigits st
        + (if numSignificantDigits st =? 0
           then Z.of_nat (significantDigits (c :: ds))
           else Z.of_nat (List.length (c :: ds)))).
    { rewrite Hn1, Hsig. cbn [List.length].
      destruct (Z.eqb_spec (numSignificantDigits st) 0) as [E|E];
        destruct (Z.eqb_spec (digitValue c) 0) as [Ez|Ez]; cbn [andb].
      - rewrite E. cbn. lia.
      - destruct (Z.eqb_spec (numSignificantDigits st + 1) 0); lia.
      - destruct (Z.eqb_spec (numSignificantDigits st + 1) 0); lia.
      - destruct (Z.eqb_spec (numSignificantDigits st + 1) 0); lia. }
    assert (Hn1' : 0 <= numSignificantDigits st1).
    { rewrite Hn1. destruct (_ && _); lia. }
    assert (Hea1' : - 2 ^ 31 <= snd (exponentAdjustment st1) < 2 ^ 31).
    { rewrite Hea1. destruct (negb _); [|exact Hea].
      cbn [snd]. apply incr_range. }
    destruct (IH st1 Hds' Hn1' ltac:(lia) Hea1')
      as (st' & Hrun & Hdp' & Hn' & Hd' & Hea' & Hrange').
    exists st'. split; [|split; [|split; [|split; [|split]]]].
    + intros more fuel. cbn [List.length Nat.add app scanLoop].
      rewrite Hstep. apply Hrun.
    + congruence.
    + rewrite Hn'. exact Hcount.
    + rewrite Hd'. destruct ds as [|c' ds']; [exact Hd1 | reflexivity].
    + intros Hdp0. rewrite Hea' by congruence. rewrite Hea1, Hdp0.
      reflexivity.
    + exact Hrange'.
Qed.

(** The retained digits of an integer part: after them the loop has counted
    17 significant digits and holds the last of them in [digit]. *)
Lemma run_integer_prefix ip :
  Forall (fun c => isDigit c = true) ip ->
  significantDigits ip = 17%nat ->
  exists st,
    (forall more fuel,
        scanLoop isDigit mulexp10 (List.length ip + fuel)
          (initialScan (ip ++ more))
        = scanLoop isDigit mulexp10 fuel (setPointer st more))
    /\ decPointIndex st = 0
    /\ numSignificantDigits st = 17
    /\ digit st = digitValue (last ip 0)
    /\ exponentAdjustment st = (0, 0).
Proof.
  intros Hip Hsig.
  destruct (run_digits ip (initialScan []) Hip) as (st & Hrun & Hdp & Hn & Hd & Hea & _).
  - cbn. lia.
  - change (numSignificantDigits (initialScan [])) with 0.
    cbn [Z.eqb]. rewrite Hsig. lia.
  - cbn. lia.
  - exists st. split; [|split; [|split; [|split]]].
    + intros more fuel. apply (Hrun more fuel).
    + exact Hdp.
    + rewrite Hn. change (numSignificantDigits (initialScan [])) with 0.
      cbn [Z.eqb]. rewrite Hsig. reflexivity.
    + rewrite Hd. destruct ip as [|c ip]; [discriminate Hsig | reflexivity].
    + apply Hea. reflexivity.
Qed.

(** The retained digits of an integer part, a decimal point and a fraction
    part. *)
Lemma run_fraction_prefix ip fp :
  isDigit 46 = false ->
  Forall (fun c => isDigit c = true) ip ->
  Forall (fun c => isDigit c = true) fp ->
  significantDigits (ip ++ fp) = 17%nat ->
  exists st,
    (forall more fuel,
        scanLoop isDigit mulexp10 (List.length (ip ++ 46 :: fp) + fuel)
          (initialScan ((ip ++ 46 :: fp) ++ more))
        = scanLoop isDigit mulexp10 fuel (setPointer st more))
    /\ decPointIndex st = 1
    /\ numSignificantDigits st = 17
    /\ digit st = digitValue (last (ip ++ fp) 0)
    /\ - 2 ^ 31 <= snd (exponentAdjustment st) < 2 ^ 31.
Proof.
  intros Hp Hip Hfp Hsig.
  rewrite significantDigits_app in Hsig.
  destruct (run_digits ip (initialScan []) Hip)
    as (st1 & Hrun1 & Hdp1 & Hn1 & Hd1 & Hea1 & Hr1).
  { cbn. lia. }
  { change (numSignificantDigits (initialScan [])) with 0. cbn [Z.eqb].
    destruct (Nat.eqb_spec (significantDigits ip) 0); lia. }
  { cbn. lia. }
  change (numSignificantDigits (initialScan [])) with 0 in Hn1.
  cbn [Z.eqb Z.add] in Hn1.
  change (decPointIndex (initialScan [])) with 0 in Hdp1.
  destruct (step_point st1 Hp Hdp1) as (st2 & Hstep & Hdp2 & Hd2 & Hn2 & Hea2).
  { rewrite Hn1. destruct (Nat.eqb_spec (significantDigits ip) 0); lia. }
  assert (Hcount :
    numSignificantDigits st2
    + (if numSignificantDigits st2 =? 0 then Z.of_nat (significantDigits fp)
       else Z.of_nat (List.length fp)) = 17).
  { rewrite Hn2, Hn1.
    destruct (Nat.eqb_spec (significantDigits ip) 0) as [E|E];
      destruct (Z.eqb_spec (Z.of_nat (significantDigits ip)) 0); lia. }
  destruct (run_digits fp st2 Hfp)
    as (st3 & Hrun3 & Hdp3 & Hn3 & Hd3 & _ & Hr3).
  { rewrite Hn2, Hn1. lia. }
  { lia. }
  { rewrite Hea2. exact Hr1. }
  exists st3. split; [|split; [|split; [|split]]].
  - intros more fuel.
    replace (List.length (ip ++ 46%Z :: fp) + fuel)%nat
      with (List.length ip + S (List.length fp + fuel))%nat
      by (rewrite length_app; cbn [List.length]; lia).
    rewrite <- app_assoc. cbn [app].
    etransitivity;
      [apply (Hrun1 (46 :: fp ++ more) (S (List.length fp + fuel)))|].
    cbn [scanLoop]. rewrite Hstep. apply Hrun3.
  - congruence.
  - rewrite Hn3. exact Hcount.
  - rewrite Hd3. destruct fp as [|c fp].
    + rewrite app_nil_r. rewrite Hd2, Hd1.
      destruct ip as [|c ip]; [discriminate Hsig | reflexivity].
    + rewrite last_app_nonempty by discriminate. reflexivity.
  - exact Hr3.
Qed.

(** The loop run on the retained digits alone stops after them. *)
Lemma loop_on_prefix (p : list juce_wchar) n st :
  (forall more fuel,
      scanLoop isDigit mulexp10 (n + fuel) (initialScan (p ++ more))
      = scanLoop isDigit mulexp10 fuel (setPointer st more)) ->
  scanLoop isDigit mulexp10 (S n) (initialScan p) = Some (setPointer st []).
Proof.
  intros Hrun. specialize (Hrun [] 1%nat).
  rewrite app_nil_r, Nat.add_1_r in Hrun. rewrite Hrun.
  cbn [scanLoop]. rewrite scanStep_break; [reflexivity | reflexivity |].
  cbn [scan_s setPointer deref hd]. apply andb_false_r.
Qed.

(** The digit that follows 17 significant digits of an integer part. *)
Lemma cap_integer st d ds tl :
  decPointIndex st = 0 ->
  numSignificantDigits st = 17 ->
  exponentAdjustment st = (0, 0) ->
  isDigit d = true ->
  Forall (fun c => isDigit c = true) ds ->
  ptrIsDigit isDigit tl = false ->
  Z.of_nat (List.length ds) < 2 ^ 31 - 1 ->
  scanStep isDigit mulexp10 (setPointer st (d :: ds ++ tl))
  = (true,
     mkScan tl (result st)
            (roundedUp (digitValue d) (digit st) (fst (accumulator st)),
             snd (accumulator st))
            (1 + Z.of_nat (List.length ds), 0)
            (exponentAccumulator st) 0 (digitValue d) (digit st) 18 true).
Proof.
  intros Hdp Hn Hea Hd Hds Htl Hlen.
  rewrite (scanStep_beyond_cap_integer isDigit mulexp10
             (setPointer st (d :: ds ++ tl)) d (ds ++ tl) eq_refl Hd Hn Hdp).
  destruct (skipDigits_run ds tl Hds Htl) as [Hskip Hlead].
  rewrite Hskip, Hlead, roundsUp_spec.
  cbn [setPointer scan_s result accumulator exponentAdjustment
       exponentAccumulator decPointIndex digit lastDigit
       numSignificantDigits digitsFound].
  rewrite Hea, Hn. cbn [fst snd].
  rewrite (iter_incr_small (S (List.length ds)) 0) by lia.
  change (incr 17) with 18.
  replace (0 + Z.of_nat (S (List.length ds)))
    with (1 + Z.of_nat (List.length ds)) by lia.
  unfold roundedUp, digitValue.
  destruct ((wrap32 (d - 48) >? 5) || _); [reflexivity|].
  destruct (accumulator st); reflexivity.
Qed.

(** The digit that follows 17 significant digits, after the decimal
    point. *)
Lemma cap_fraction st d ds tl :
  decPointIndex st = 1 ->
  numSignificantDigits st = 17 ->
  - 2 ^ 31 <= snd (exponentAdjustment st) < 2 ^ 31 ->
  isDigit d = true ->
  Forall (fun c => isDigit c = true) ds ->
  ptrIsDigit isDigit tl = false ->
  scanStep isDigit mulexp10 (setPointer st (d :: ds ++ tl))
  = (true,
     mkScan tl (result st)
            (fst (accumulator st),
             roundedUp (digitValue d) (digit st) (snd (accumulator st)))
            (exponentAdjustment st)
            (exponentAccumulator st) 1 (digitValue d) (digit st) 18 true).
Proof.
  intros Hdp Hn Hea Hd Hds Htl.
  rewrite (scanStep_beyond_cap_fraction isDigit mulexp10
             (setPointer st (d :: ds ++ tl)) d (ds ++ tl) eq_refl Hd Hn Hdp).
  destruct (skipDigits_run ds tl Hds Htl) as [Hskip _].
  rewrite Hskip, roundsUp_spec.
  cbn [setPointer scan_s result accumulator exponentAdjustment
       exponentAccumulator decPointIndex digit lastDigit
       numSignificantDigits digitsFound].
  rewrite Hn. change (incr 17) with 18.
  rewrite (wrap32_small (snd (exponentAdjustment st)) Hea).
  unfold roundedUp, digitValue.
  destruct (exponentAdjustment st) as [a b]. cbn [fst snd].
  destruct ((wrap32 (d - 48) >? 5) || _); [reflexivity|].
  destruct (accumulator st); reflexivity.
Qed.

(** The scan of a text whose digit loop ends in [final]. *)
Lemma getDoubleValue_scan_of_loop text s neg n final :
  readSign (findEndOfWhitespace isWhitespace text) = (neg, s) ->
  special s = None ->
  (n <= S (List.length s))%nat ->
  scanLoop isDigit mulexp10 n (initialScan s) = Some final ->
  getDoubleValue_scan isWhitespace isDigit mulexp10 text
  = Some (finishScan isDigit mulexp10 neg final).
Proof.
  intros Hsign Hsp Hn Hloop. unfold getDoubleValue_scan.
  rewrite Hsign, Hsp.
  rewrite (scanLoop_more_fuel isDigit mulexp10 n _ _ Hloop _ Hn).
  reflexivity.
Qed.

(** C3. getDoubleValue on a number with more than 17 significant digits,
    leading zeros not counted (the digits [ip], and [fp] after a decimal
    point, hold 17 significant digits from the first non-zero one on; [d] is
    the next digit, [ds] the digits after it).  The loop run on the retained
    digits alone ends in locals [K] with [numSignificantDigits = 17] and the
    last retained digit in [digit].  On the whole text the loop ends with the
    accumulators, results and exponent accumulators of [K] except that the
    accumulator of the lane is raised by one exactly when [d] is greater than
    5, or is 5 with the last retained digit odd; neither [d] nor [ds] is
    folded in.  When [d] is read before the decimal point, [d] and every
    digit of [ds] add one to [exponentAdjustment[0]], and a decimal point
    and fraction digits that follow are skipped; when [d] is read after the
    decimal point, the exponent adjustment is that of [K].  The value
    returned is what the code after the loop makes of these locals. *)
Theorem getDoubleValue_digit_cap
    (text s : CharPointer) (neg : bool)
    (ip fp ds rest : list juce_wchar) (d : juce_wchar) :
  isDigit 46 = false ->
  readSign (findEndOfWhitespace isWhitespace text) = (neg, s) ->
  special s = None ->
  Forall (fun c => isDigit c = true) ip ->
  Forall (fun c => isDigit c = true) fp ->
  isDigit d = true ->
  Forall (fun c => isDigit c = true) ds ->
  ptrIsDigit isDigit rest = false ->
  significantDigits (ip ++ fp) = 17%nat ->
  Z.of_nat (List.length ds) < 2 ^ 31 - 1 ->
  let dv := digitValue d in
  let lastv := digitValue (last (ip ++ fp) 0) in
  (fp = [] ->
   exists K,
     scanLoop isDigit mulexp10 (S (List.length ip)) (initialScan ip) = Some K
     /\ numSignificantDigits K = 17
     /\ digit K = lastv
     /\ (let final (dp : Z) :=
           mkScan rest (result K)
                  (roundedUp dv lastv (fst (accumulator K)),
                   snd (accumulator K))
                  (1 + Z.of_nat (List.length ds), 0)
                  (exponentAccumulator K) dp dv lastv 18 true in
         (s = ip ++ d :: ds ++ rest ->
          deref rest <> 46 ->
          getDoubleValue_scan isWhitespace isDigit mulexp10 text
          = Some (finishScan isDigit mulexp10 neg (final 0)))
         /\ (forall fs,
                Forall (fun c => isDigit c = true) fs ->
                s = ip ++ d :: ds ++ 46 :: fs ++ rest ->
                getDoubleValue_scan isWhitespace isDigit mulexp10 text
                = Some (finishScan isDigit mulexp10 neg (final 1)))))
  /\ (s = ip ++ 46 :: fp ++ d :: ds ++ rest ->
      exists K,
        scanLoop isDigit mulexp10 (S (List.length (ip ++ 46 :: fp)))
                 (initialScan (ip ++ 46 :: fp)) = Some K
        /\ numSignificantDigits K = 17
        /\ digit K = lastv
        /\ getDoubleValue_scan isWhitespace isDigit mulexp10 text
           = Some (finishScan isDigit mulexp10 neg
                     (mkScan rest (result K)
                             (fst (accumulator K),
                              roundedUp dv lastv (snd (accumulator K)))
                             (exponentAdjustment K)
                             (exponentAccumulator K) 1 dv lastv 18 true))).
Proof.
  intros Hp Hsign Hsp Hip Hfp Hd Hds Hrest Hsig Hlen dv lastv.
  split.
  - intros Hnil. subst fp. subst lastv. rewrite app_nil_r in *.
    destruct (run_integer_prefix ip Hip Hsig)
      as (st & Hrun & Hdp & Hn & Hdig & Hea).
    exists (setPointer st []).
    split; [apply (loop_on_prefix ip _ st Hrun)|].
    split; [exact Hn|]. split; [exact Hdig|].
    cbn [setPointer result accumulator exponentAccumulator].
    split.
    + intros Hs Hdot.
      apply (getDoubleValue_scan_of_loop text s neg
               (List.length ip + 2)%nat _ Hsign Hsp).
      { rewrite Hs, length_app. cbn [List.length]. lia. }
      rewrite Hs, (Hrun (d :: ds ++ rest) 2%nat).
      cbn [scanLoop].
      rewrite (cap_integer st d ds rest Hdp Hn Hea Hd Hds Hrest Hlen).
      rewrite scanStep_break.
      * rewrite Hdig. reflexivity.
      * exact Hrest.
      * cbn [scan_s decPointIndex]. apply andb_false_iff. right.
        apply Z.eqb_neq. exact Hdot.
    + intros fs Hfs Hs.
      apply (getDoubleValue_scan_of_loop text s neg
               (List.length ip + 2)%nat _ Hsign Hsp).
      { rewrite Hs, length_app. cbn [List.length]. lia. }
      rewrite Hs, (Hrun (d :: ds ++ 46 :: fs ++ rest) 2%nat).
      cbn [scanLoop].
      rewrite (cap_integer st d ds (46 :: fs ++ rest) Hdp Hn Hea Hd Hds Hp Hlen).
      destruct (skipDigits_run fs rest Hfs Hrest) as [Hskip _].
      unfold scanStep.
      cbn [scan_s result accumulator exponentAdjustment exponentAccumulator
           decPointIndex digit lastDigit numSignificantDigits digitsFound
           ptrIsDigit deref hd advance tl].
      rewrite Hp, Hskip, Hdig. reflexivity.
  - intros Hs. subst lastv.
    destruct (run_fraction_prefix ip fp Hp Hip Hfp Hsig)
      as (st & Hrun & Hdp & Hn & Hdig & Hea).
    exists (setPointer st []).
    split; [apply (loop_on_prefix (ip ++ 46 :: fp) _ st Hrun)|].
    split; [exact Hn|]. split; [exact Hdig|].
    cbn [setPointer result accumulator exponentAdjustment exponentAccumulator].
    apply (getDoubleValue_scan_of_loop text s neg
             (List.length (ip ++ 46%Z :: fp) + 2)%nat _ Hsign Hsp).
    { rewrite Hs, !length_app. cbn [List.length]. rewrite length_app.
      cbn [List.length]. lia. }
    replace s with ((ip ++ 46 :: fp) ++ d :: ds ++ rest)
      by (rewrite Hs, <- app_assoc; reflexivity).
    rewrite (Hrun (d :: ds ++ rest) 2%nat).
    cbn [scanLoop].
    rewrite (cap_fraction st d ds rest Hdp Hn Hea Hd Hds Hrest).
    rewrite scanStep_break.
    + rewrite Hdig. reflexivity.
    + exact Hrest.
    + reflexivity.
Qed.

End DigitCap.

(** ** Instances of the significant-digit cap *)

(** [ -001234567890123456789x]: two leading zeros, 17 retained digits, then
    [8] and [9] before the decimal point; [1234567890123456789.25e3]: the same
    with a fraction part that is skipped; [0.0123456789012345675 9]: the
    eighteenth significant digit, a 5 after the odd digit 7, is read after
    the decimal point. *)
Lemma getDoubleValue_digit_cap_witness :
  (exists K,
      scanLoop asciiIsDigit mulexp10_pow
               (S (List.length (chars "0012345678901234567")))
               (initialScan (chars "0012345678901234567")) = Some K
      /\ numSignificantDigits K = 17
      /\ digit K = 7
      /\ getDoubleValue_scan asciiIsWhitespace asciiIsDigit mulexp10_pow
           (chars " -001234567890123456789x")
         = Some (finishScan asciiIsDigit mulexp10_pow true
                   (mkScan (chars "x") (result K)
                           (roundedUp 8 7 (fst (accumulator K)),
                            snd (accumulator K))
                           (2, 0) (exponentAccumulator K) 0 8 7 18 true)))
  /\ (exists K,
         scanLoop asciiIsDigit mulexp10_pow
                  (S (List.length (chars "12345678901234567")))
                  (initialScan (chars "12345678901234567")) = Some K
         /\ getDoubleValue_scan asciiIsWhitespace asciiIsDigit mulexp10_pow
              (chars "1234567890123456789.25e3")
            = Some (finishScan asciiIsDigit mulexp10_pow false
                      (mkScan (chars "e3") (result K)
                              (roundedUp 8 7 (fst (accumulator K)),
                               snd (accumulator K))
                              (2, 0) (exponentAccumulator K) 1 8 7 18 true)))
  /\ (exists K,
         scanLoop asciiIsDigit mulexp10_pow
                  (S (List.length (chars "0.012345678901234567")))
                  (initialScan (chars "0.012345678901234567")) = Some K
         /\ numSignificantDigits K = 17
         /\ digit K = 7
         /\ getDoubleValue_scan asciiIsWhitespace asciiIsDigit mulexp10_pow
              (chars "0.0123456789012345675 9")
            = Some (finishScan asciiIsDigit mulexp10_pow false
                      (mkScan (chars " 9") (result K)
                              (fst (accumulator K),
                               roundedUp 5 7 (snd (accumulator K)))
                              (exponentAdjustment K)
                              (exponentAccumulator K) 1 5 7 18 true))).
Proof.
  split; [|split].
  - destruct (getDoubleValue_digit_cap asciiIsWhitespace asciiIsDigit
                mulexp10_pow (chars " -001234567890123456789x")
                (chars "001234567890123456789x") true
                (chars "0012345678901234567") [] (chars "9") (chars "x") 56
                eq_refl eq_refl eq_refl
                ltac:(repeat constructor) ltac:(constructor) eq_refl
                ltac:(repeat constructor) eq_refl eq_refl eq_refl)
      as [H _].
    destruct (H eq_refl) as (K & HK & Hn & Hd & H1 & _).
    exists K. split; [exact HK|]. split; [exact Hn|]. split; [exact Hd|].
    apply (H1 eq_refl). discriminate.
  - destruct (getDoubleValue_digit_cap asciiIsWhitespace asciiIsDigit
                mulexp10_pow (chars "1234567890123456789.25e3")
                (chars "1234567890123456789.25e3") false
                (chars "12345678901234567") [] (chars "9") (chars "e3") 56
                eq_refl eq_refl eq_refl
                ltac:(repeat constructor) ltac:(constructor) eq_refl
                ltac:(repeat constructor) eq_refl eq_refl eq_refl)
      as [H _].
    destruct (H eq_refl) as (K & HK & _ & _ & _ & H2).
    exists K. split; [exact HK|].
    apply (H2 (chars "25")); [repeat constructor | reflexivity].
  - destruct (getDoubleValue_digit_cap asciiIsWhitespace asciiIsDigit
                mulexp10_pow (chars "0.0123456789012345675 9")
                (chars "0.0123456789012345675 9") false
                (chars "0") (chars "012345678901234567") [] (chars " 9") 53
                eq_refl eq_refl eq_refl
                ltac:(repeat constructor) ltac:(repeat constructor) eq_refl
                ltac:(constructor) eq_refl eq_refl eq_refl)
      as [_ H].
    exact (H eq_refl).
Defined.

(** The same three texts evaluated. *)
Example getDoubleValue_digit_cap_values :
  getDoubleValue asciiIsWhitespace asciiIsDigit mulexp10_pow
    (chars " -001234567890123456789x")
  = Some (dneg (of_int 1234567890123456800))
  /\ getDoubleValue_scan asciiIsWhitespace asciiIsDigit mulexp10_pow
       (chars "1234567890123456789.25e3")
     = Some (of_int 1234567890123456800000, [])
  /\ getDoubleValue_scan asciiIsWhitespace asciiIsDigit mulexp10_pow
       (chars "0.0123456789012345675 9")
     = getDoubleValue_scan asciiIsWhitespace asciiIsDigit mulexp10_pow
         (chars "0.012345678901234568 9").
Proof.
  split; [vm_compute; reflexivity|].
  split; vm_compute; reflexivity.
Qed.
